(** * DruidMetadataExtractor: grouping rows of INFORMATION_SCHEMA.COLUMNS
      into table metadata

    A shallow embedding of
    [databuilder/extractor/druid_metadata_extractor.py].  The Python
    generators are modelled operationally: every [next()] is a function on
    an explicit heap holding the row source and the [itertools.groupby]
    cursor, and exceptions are results.  On top of that the file states what
    a sequence of [extract()] calls returns. *)

From stdpp Require Import gmap strings list fin_maps sorting.
From Stdlib Require Import ZArith Ascii.

(** ** Python values, rows and exceptions *)

(** A cell of a result row: SQL NULL, a string or an integer.  On these,
    Python's [==] is structural equality. *)
Inductive value :=
| VNone
| VStr (s : string)
| VInt (z : Z).

Global Instance value_eq_dec : EqDecision value.
Proof. solve_decision. Defined.

(** A row is a Python [dict] from column alias to cell. *)
Abbreviation row := (gmap string value).

(** The exceptions that occur.  [SourceError] stands for whatever the row
    source raises when the query or the connection fails, with its message.
    [OutOfFuel] is not a Python exception: it is what a loop of the model
    answers when its iteration budget is used up, and
    [_get_extract_iter_next_total] shows that it never surfaces. *)
Inductive exn :=
| StopIteration
| KeyError (k : string)
| TypeError
| UnboundLocalError (v : string)
| ValueError
| IndexError
| ConfigMissingException (k : string)
| SourceError (msg : string)
| OutOfFuel.

Global Instance exn_eq_dec : EqDecision exn.
Proof. solve_decision. Defined.

Inductive outcome (A : Type) :=
| Return (a : A)
| Raise (e : exn).
Arguments Return {A} a.
Arguments Raise {A} e.

(** [d[k]] on a dict. *)
Definition getitem (d : row) (k : string) : outcome value :=
  match d !! k with
  | Some v => Return v
  | None => Raise (KeyError k)
  end.

(** [bool(d)] on a dict: false exactly for the empty one. *)
Definition dict_truthy (d : row) : bool := bool_decide (d ≠ ∅).

(** [bool(r)] on what the row source hands out: [None] or a dict. *)
Definition truthy (r : option row) : bool :=
  match r with
  | None => false
  | Some d => dict_truthy d
  end.

(** ** The models' records *)

(** [TableKey = namedtuple('TableKey', ['schema', 'table_name'])] *)
Record TableKey := { schema : value; table_name : value }.

Global Instance TableKey_eq_dec : EqDecision TableKey.
Proof. solve_decision. Defined.

(** Modelled from the spec: the class [ColumnMetadata] of
    [databuilder.models.table_metadata] is not part of the sources; the
    record has the fields of the spec's Column Entity, filled from the
    keyword arguments of the constructor call. *)
Record ColumnMetadata := {
  col_name : value;
  col_description : string;
  col_type : value;
  col_sort_order : value
}.

(** Modelled from the spec: the class [TableMetadata] of
    [databuilder.models.table_metadata] is not part of the sources; the
    record has the fields of the spec's Table Entity, filled from the
    keyword arguments of the constructor call. *)
Record TableMetadata := {
  tm_database : string;
  tm_cluster : string;
  tm_schema : value;
  tm_name : value;
  tm_description : string;
  tm_columns : list ColumnMetadata
}.

(** ** The heap of one [next()] on the entity generator *)

(** A key held by [groupby]: the private [object()] it starts from, or what
    the key function returned ([None] or a [TableKey]). *)
Inductive gkey :=
| KSentinel
| KVal (k : option TableKey).

Global Instance gkey_eq_dec : EqDecision gkey.
Proof. solve_decision. Defined.

(** A value held by [groupby] or bound to [last_row]: that same [object()],
    or a row. *)
Inductive obj :=
| Object
| Dict (d : row).

(** Modelled from the spec: the Row Source ([SQLAlchemyExtractor], not part
    of the sources) hands out one result per call of its [extract()] and
    [None] once its result set is used up, or it raises when the query or
    the connection fails during a fetch.  [pending] are the results it has
    still to hand out, [calls] counts the calls made so far, and [broken]
    is the failure, if any, that it raises in the place of the end of its
    results.  What a source would do after it has raised is left open: the
    generators are finished by then and no call follows. *)
Record SQLAlchemyExtractor := {
  pending : list (option row);
  calls : nat;
  broken : option string
}.

(** The [groupby] object together with the raw generator it iterates:
    [it_finished] says that [_get_raw_extract_iter] has returned, [gid]
    numbers the [object()] that identifies the current group. *)
Record groupby := {
  it_finished : bool;
  tgtkey : gkey;
  currkey : gkey;
  currvalue : obj;
  gid : nat
}.

Record heap := {
  alch : SQLAlchemyExtractor;
  grp : groupby
}.

(** State and exception monad over the heap; an exception keeps the heap
    as it was when it was raised. *)
Definition M (A : Type) : Type := heap → outcome A * heap.

Definition ret {A} (a : A) : M A := λ h, (Return a, h).
Definition raise {A} (e : exn) : M A := λ h, (Raise e, h).
Definition lift {A} (o : outcome A) : M A := λ h, (o, h).
Definition bind {A B} (m : M A) (k : A → M B) : M B :=
  λ h, match m h with
       | (Return a, h') => k a h'
       | (Raise e, h') => (Raise e, h')
       end.

Notation "'let*' x := m 'in' k" := (bind m (λ x, k))
  (at level 10, x binder, m at level 100, k at level 200).
Notation "'let*' ' p := m 'in' k" := (bind m (λ x, let 'p := x in k))
  (at level 10, p pattern, m at level 100, k at level 200).

Definition get_grp : M groupby := λ h, (Return (grp h), h).
Definition put_grp (g : groupby) : M unit :=
  λ h, (Return tt, {| alch := alch h; grp := g |}).

(** ** The row source and the raw generator *)

(** [self._alchemy_extractor.extract()] *)
Definition alchemy_extract : M (option row) := λ h,
  let a := alch h in
  match pending a with
  | [] => (match broken a with
           | None => Return None
           | Some msg => Raise (SourceError msg)
           end,
           {| alch := {| pending := []; calls := S (calls a);
                         broken := broken a |};
              grp := grp h |})
  | r :: p => (Return r, {| alch := {| pending := p; calls := S (calls a);
                                       broken := broken a |};
                            grp := grp h |})
  end.

Definition set_it_finished (g : groupby) : groupby :=
  {| it_finished := true; tgtkey := tgtkey g; currkey := currkey g;
     currvalue := currvalue g; gid := gid g |}.

(** The raw generator returns. *)
Definition finish_it : M unit :=
  let* g := get_grp in put_grp (set_it_finished g).

(** A generator that an exception leaves is finished as well. *)
Definition finishing {A} (m : M A) : M A := λ h,
  match m h with
  | (Raise e, h') => (Raise e, (finish_it h').2)
  | res => res
  end.

(** One [next()] on the generator [_get_raw_extract_iter]:
<<
    row = self._alchemy_extractor.extract()
    while row:
        yield row
        row = self._alchemy_extractor.extract()
>>
    Started or resumed, it asks the source for one result and yields it if
    it is truthy; otherwise it returns, and a generator that has returned
    raises [StopIteration] without running any code.  Nothing catches what
    the source raises: it leaves the generator, which is then finished. *)
Definition _get_raw_extract_iter_next : M row :=
  let* g := get_grp in
  if it_finished g then raise StopIteration
  else
    let* r := finishing alchemy_extract in
    match r with
    | Some d => if dict_truthy d then ret d
                else (let* _ := finish_it in raise StopIteration)
    | None => let* _ := finish_it in raise StopIteration
    end.

(** ** The key function *)

(** [_get_table_key]:
<<
    if row:
        return TableKey(schema=row['schema'], table_name=row['name'])
    return None
>> *)
Definition _get_table_key (r : row) : outcome (option TableKey) :=
  if dict_truthy r then
    match getitem r "schema" with
    | Raise e => Raise e
    | Return s =>
      match getitem r "name" with
      | Raise e => Raise e
      | Return n => Return (Some {| schema := s; table_name := n |})
      end
    end
  else Return None.

Definition bind_o {A B} (o : outcome A) (k : A → outcome B) : outcome B :=
  match o with
  | Return a => k a
  | Raise e => Raise e
  end.

Notation "'let?' x := o 'in' k" := (bind_o o (λ x, k))
  (at level 10, x binder, o at level 100, k at level 200).

(** ** [itertools.groupby]

    After the equivalent that the library documentation gives:
<<
    class groupby:
        def __init__(self, iterable, key=None):
            self.keyfunc = key
            self.it = iter(iterable)
            self.tgtkey = self.currkey = self.currvalue = object()
        def __next__(self):
            self.id = object()
            while self.currkey == self.tgtkey:
                self.currvalue = next(self.it)    # Exit on StopIteration
                self.currkey = self.keyfunc(self.currvalue)
            self.tgtkey = self.currkey
            return (self.currkey, self._grouper(self.tgtkey, self.id))
        def _grouper(self, tgtkey, id):
            while self.id is id and self.currkey == tgtkey:
                yield self.currvalue
                try:
                    self.currvalue = next(self.it)
                except StopIteration:
                    return
                self.currkey = self.keyfunc(self.currvalue)
>>
    with [it] the raw generator and [keyfunc] the method [_get_table_key]. *)

Definition set_currvalue (v : obj) (g : groupby) : groupby :=
  {| it_finished := it_finished g; tgtkey := tgtkey g; currkey := currkey g;
     currvalue := v; gid := gid g |}.
Definition set_currkey (k : gkey) (g : groupby) : groupby :=
  {| it_finished := it_finished g; tgtkey := tgtkey g; currkey := k;
     currvalue := currvalue g; gid := gid g |}.
Definition set_tgtkey (k : gkey) (g : groupby) : groupby :=
  {| it_finished := it_finished g; tgtkey := k; currkey := currkey g;
     currvalue := currvalue g; gid := gid g |}.
Definition set_gid (i : nat) (g : groupby) : groupby :=
  {| it_finished := it_finished g; tgtkey := tgtkey g; currkey := currkey g;
     currvalue := currvalue g; gid := i |}.

Definition modify_grp (f : groupby → groupby) : M unit :=
  let* g := get_grp in put_grp (f g).

(** [groupby(self._get_raw_extract_iter(), self._get_table_key)] *)
Definition groupby_new : groupby :=
  {| it_finished := false; tgtkey := KSentinel; currkey := KSentinel;
     currvalue := Object; gid := 0 |}.

(** The two assignments both loops make:
    [self.currvalue = next(self.it); self.currkey = self.keyfunc(self.currvalue)],
    given the row that [next(self.it)] returned. *)
Definition groupby_store (v : row) : M unit :=
  let* _ := modify_grp (set_currvalue (Dict v)) in
  let* k := lift (_get_table_key v) in
  modify_grp (set_currkey (KVal k)).

(** The loop of [__next__]; every pass but the last takes a result from the
    source, so [S (length pending)] passes are enough. *)
Fixpoint groupby_skip (fuel : nat) : M unit :=
  match fuel with
  | O => raise OutOfFuel
  | S fuel' =>
    let* g := get_grp in
    if bool_decide (currkey g = tgtkey g) then
      let* v := _get_raw_extract_iter_next in
      let* _ := groupby_store v in
      groupby_skip fuel'
    else ret tt
  end.

(** The generator object that [_grouper(tgtkey, id)] returns. *)
Record grouper := {
  grouper_tgtkey : gkey;
  grouper_id : nat;
  grouper_started : bool
}.

Definition loop_budget : M nat :=
  λ h, (Return (2 + length (pending (alch h))), h).

(** [groupby.__next__] *)
Definition groupby_next : M (gkey * grouper) :=
  let* g := get_grp in
  let* _ := put_grp (set_gid (S (gid g)) g) in
  let* fuel := loop_budget in
  let* _ := groupby_skip fuel in
  let* g := get_grp in
  let* _ := put_grp (set_tgtkey (currkey g) g) in
  ret (currkey g,
       {| grouper_tgtkey := currkey g; grouper_id := gid g;
          grouper_started := false |}).

(** The test of the [while] of [_grouper] followed by its [yield]. *)
Definition grouper_test (gr : grouper) : M (obj * grouper) :=
  let* g := get_grp in
  if bool_decide (gid g = grouper_id gr)
     && bool_decide (currkey g = grouper_tgtkey gr)
  then ret (currvalue g,
            {| grouper_tgtkey := grouper_tgtkey gr; grouper_id := grouper_id gr;
               grouper_started := true |})
  else raise StopIteration.

(** One [next()] on a group that has not returned yet.  A fresh group goes
    to the test; a resumed one first takes the next row, returning when
    there is none. *)
Definition grouper_next (gr : grouper) : M (obj * grouper) :=
  if grouper_started gr then
    let* v := _get_raw_extract_iter_next in
    let* _ := groupby_store v in
    grouper_test gr
  else grouper_test gr.

(** ** The entity generator *)

(** [o[k]] on what [groupby] may hold. *)
Definition subscript (o : obj) (k : string) : outcome value :=
  match o with
  | Object => Raise TypeError
  | Dict d => getitem d k
  end.

(** [ColumnMetadata(name=row['col_name'], description='',
                    col_type=row['col_type'],
                    sort_order=row['col_sort_order'])] *)
Definition new_column (row : obj) : outcome ColumnMetadata :=
  let? n := subscript row "col_name" in
  let? t := subscript row "col_type" in
  let? s := subscript row "col_sort_order" in
  Return {| col_name := n; col_description := EmptyString; col_type := t;
            col_sort_order := s |}.

(** [TableMetadata(database='druid', cluster=self._cluster,
                   schema=last_row['schema'], name=last_row['name'],
                   description='', columns=columns)];
    [last_row] is a local of the generator and may still be unbound. *)
Definition new_table (cluster : string) (last_row : option obj)
    (columns : list ColumnMetadata) : outcome TableMetadata :=
  match last_row with
  | None => Raise (UnboundLocalError "last_row")
  | Some o =>
    let? s := subscript o "schema" in
    let? n := subscript o "name" in
    Return {| tm_database := "druid"; tm_cluster := cluster; tm_schema := s;
              tm_name := n; tm_description := EmptyString;
              tm_columns := columns |}
  end.

(** The inner loop
<<
    for row in group:
        last_row = row
        columns.append(ColumnMetadata(...))
>>
    Every pass but the first takes a result from the source. *)
Fixpoint for_row_in_group (fuel : nat) (group : grouper)
    (columns : list ColumnMetadata) (last_row : option obj)
    : M (list ColumnMetadata * option obj) :=
  match fuel with
  | O => raise OutOfFuel
  | S fuel' => λ h,
    match grouper_next group h with
    | (Return (row, group'), h') =>
      (let* c := lift (new_column row) in
       for_row_in_group fuel' group' (columns ++ [c]) (Some row)) h'
    | (Raise StopIteration, h') => (Return (columns, last_row), h')
    | (Raise e, h') => (Raise e, h')
    end
  end.

(** One pass of the outer loop, from its head to the [yield]:
<<
    for key, group in groupby(self._get_raw_extract_iter(), self._get_table_key):
        columns = []
        for row in group: ...
        yield TableMetadata(...)
>>
    [StopIteration] out of [groupby_next] ends the loop and the generator. *)
Definition outer_pass (cluster : string) (last_row : option obj)
    : M (TableMetadata * option obj) :=
  let* '(key, group) := groupby_next in
  let* fuel := loop_budget in
  let* '(columns, last_row) := for_row_in_group fuel group [] last_row in
  let* t := lift (new_table cluster last_row columns) in
  ret (t, last_row).

(** The generator object of [_get_extract_iter]: created and not started,
    suspended at its [yield] (with the [groupby] object and the local
    [last_row] of its frame), or finished by a return or an exception. *)
Inductive generator :=
| GenCreated
| GenSuspended (g : groupby) (last_row : option obj)
| GenFinished.

(** Calling [self._get_extract_iter()] only creates the generator. *)
Definition _get_extract_iter : generator := GenCreated.

Definition resume (cluster : string) (g : groupby) (last_row : option obj)
    (a : SQLAlchemyExtractor)
    : outcome TableMetadata * generator * SQLAlchemyExtractor :=
  match outer_pass cluster last_row {| alch := a; grp := g |} with
  | (Return (t, last_row'), h) => (Return t, GenSuspended (grp h) last_row', alch h)
  | (Raise e, h) => (Raise e, GenFinished, alch h)
  end.

(** One [next()] on the generator of [_get_extract_iter]. *)
Definition _get_extract_iter_next (cluster : string) (gen : generator)
    (a : SQLAlchemyExtractor)
    : outcome TableMetadata * generator * SQLAlchemyExtractor :=
  match gen with
  | GenCreated => resume cluster groupby_new None a
  | GenSuspended g last_row => resume cluster g last_row a
  | GenFinished => (Raise StopIteration, GenFinished, a)
  end.

(** ** The extractor object *)

Record DruidMetadataExtractor := {
  _cluster : string;
  sql_stmt : string;
  _alchemy_extractor : SQLAlchemyExtractor;
  _extract_iter : option generator
}.

(** [extract]:
<<
    if not self._extract_iter:
        self._extract_iter = self._get_extract_iter()
    try:
        return next(self._extract_iter)
    except StopIteration:
        return None
>>
    A generator object is truthy whatever its state, so only the initial
    [None] makes the test succeed. *)
Definition extract (self : DruidMetadataExtractor)
    : outcome (option TableMetadata) * DruidMetadataExtractor :=
  let it := match _extract_iter self with
            | None => _get_extract_iter
            | Some gen => gen
            end in
  let '(r, it', a') :=
    _get_extract_iter_next (_cluster self) it (_alchemy_extractor self) in
  let self' := {| _cluster := _cluster self; sql_stmt := sql_stmt self;
                  _alchemy_extractor := a'; _extract_iter := Some it' |} in
  match r with
  | Return t => (Return (Some t), self')
  | Raise StopIteration => (Return None, self')
  | Raise e => (Raise e, self')
  end.

(** [get_scope] *)
Definition get_scope : string := "extractor.druid_metadata".

(** What [n] successive calls of [extract()] return, and the extractor they
    leave. *)
Fixpoint extract_n (n : nat) (self : DruidMetadataExtractor)
    : list (outcome (option TableMetadata)) * DruidMetadataExtractor :=
  match n with
  | O => ([], self)
  | S n' =>
    let '(r, self') := extract self in
    let '(rs, self'') := extract_n n' self' in
    (r :: rs, self'')
  end.

(** ** The SQL statement *)

Module Py.

Definition nl : string := String "010" EmptyString.

(** [s.split('\n')] *)
Fixpoint split_lines_go (cur : string) (s : string) : list string :=
  match s with
  | EmptyString => [String.rev cur]
  | String c s' =>
    if Ascii.eqb c "010" then String.rev cur :: split_lines_go EmptyString s'
    else split_lines_go (String c cur) s'
  end.
Definition split_lines : string → list string := split_lines_go EmptyString.

(** ['\n'.join(ls)] *)
Fixpoint join_lines (ls : list string) : string :=
  match ls with
  | [] => EmptyString
  | [l] => l
  | l :: ls' => l +:+ nl +:+ join_lines ls'
  end.

Definition is_blank (c : ascii) : bool :=
  Ascii.eqb c " " || Ascii.eqb c "009".

(** The leading run of spaces and tabs of a line. *)
Fixpoint indent_of (l : string) : string :=
  match l with
  | String c l' => if is_blank c then String c (indent_of l') else EmptyString
  | EmptyString => EmptyString
  end.

Fixpoint all_blank (l : string) : bool :=
  match l with
  | String c l' => is_blank c && all_blank l'
  | EmptyString => true
  end.

Fixpoint common_prefix (a b : string) : string :=
  match a, b with
  | String x a', String y b' =>
    if Ascii.eqb x y then String x (common_prefix a' b') else EmptyString
  | _, _ => EmptyString
  end.

Fixpoint strip_prefix (m l : string) : option string :=
  match m, l with
  | EmptyString, _ => Some l
  | String x m', String y l' =>
    if Ascii.eqb x y then strip_prefix m' l' else None
  | String _ _, EmptyString => None
  end.

(** [textwrap.dedent]: lines of blanks only become empty, the margin is
    the longest run of blanks that starts every other line, and it is
    removed from the lines that start with it. *)
Definition dedent (text : string) : string :=
  let lines := (λ l, if all_blank l then EmptyString else l) <$> split_lines text in
  let indents := indent_of <$> filter (λ l, l ≠ EmptyString) lines in
  let margin := match indents with
                | [] => EmptyString
                | i :: rest => foldl common_prefix i rest
                end in
  join_lines ((λ l, default l (strip_prefix margin l)) <$> lines).

(** [template.format( *args, **kwargs)] for templates whose replacement
    fields are [{}] (the next positional argument) or [{name}] (a keyword
    argument), without conversion or format specification; [{{] and [}}]
    stand for a brace.  [field] is the name read so far inside a field. *)
Fixpoint format_go (t : string) (field : option string)
    (args : list string) (kwargs : list (string * string)) : outcome string :=
  match field, t with
  | None, EmptyString => Return EmptyString
  | None, String "{" (String "{" t') =>
    let? r := format_go t' None args kwargs in Return (String "{" r)
  | None, String "}" (String "}" t') =>
    let? r := format_go t' None args kwargs in Return (String "}" r)
  | None, String "{" t' => format_go t' (Some EmptyString) args kwargs
  | None, String "}" _ => Raise ValueError
  | None, String c t' =>
    let? r := format_go t' None args kwargs in Return (String c r)
  | Some _, EmptyString => Raise ValueError
  | Some EmptyString, String "}" t' =>
    match args with
    | [] => Raise IndexError
    | a :: args' =>
      let? r := format_go t' None args' kwargs in Return (a +:+ r)
    end
  | Some name, String "}" t' =>
    match list_find (λ kv, kv.1 = name) kwargs with
    | None => Raise (KeyError name)
    | Some (_, (_, v)) =>
      let? r := format_go t' None args kwargs in Return (v +:+ r)
    end
  | Some name, String c t' =>
    format_go t' (Some (name +:+ String c EmptyString)) args kwargs
  end.

Definition format (t : string) (args : list string)
    (kwargs : list (string * string)) : outcome string :=
  format_go t None args kwargs.

End Py.

(** The text between the triple quotes, line by line. *)
Definition SQL_STATEMENT_literal : string :=
  Py.join_lines
    [ EmptyString;
      "        SELECT";
      "        TABLE_SCHEMA as schema,";
      "        TABLE_NAME as name,";
      "        COLUMN_NAME as col_name,";
      "        DATA_TYPE as col_type,";
      "        ORDINAL_POSITION as col_sort_order";
      "        FROM INFORMATION_SCHEMA.COLUMNS";
      "        {where_clause_suffix}";
      "        order by TABLE_SCHEMA, TABLE_NAME, CAST(ORDINAL_POSITION AS int)";
      "    " ].

Definition SQL_STATEMENT : string := Py.dedent SQL_STATEMENT_literal.

(** ** Configuration *)

Definition WHERE_CLAUSE_SUFFIX_KEY : string := "where_clause_suffix".
Definition CLUSTER_KEY : string := "cluster".

(** The part of a pyhocon [ConfigTree] that the extractor reads: string
    values under top-level keys. *)
Definition DEFAULT_CONFIG : gmap string string :=
  {[ WHERE_CLAUSE_SUFFIX_KEY := " "; CLUSTER_KEY := "gold" ]}.

(** [conf.with_fallback(fallback)]: the keys of [conf] win. *)
Definition with_fallback (conf fallback : gmap string string)
    : gmap string string := conf ∪ fallback.

(** [conf.get_string(key)] and [conf.get_string(key, default=d)] *)
Definition get_string (conf : gmap string string) (key : string)
    (default : option string) : outcome string :=
  match conf !! key with
  | Some v => Return v
  | None =>
    match default with
    | Some d => Return d
    | None => Raise (ConfigMissingException key)
    end
  end.

(** [init]:
<<
    conf = conf.with_fallback(DruidMetadataExtractor.DEFAULT_CONFIG)
    self._cluster = '{}'.format(conf.get_string(CLUSTER_KEY))
    self.sql_stmt = SQL_STATEMENT.format(
        where_clause_suffix=conf.get_string(WHERE_CLAUSE_SUFFIX_KEY, default=''))
    self._alchemy_extractor = SQLAlchemyExtractor()
    ...
    self._extract_iter = None
>>
    [source] is the row source that [SQLAlchemyExtractor()] creates, as it
    is once it has been initialised with the statement: what it will hand
    out, and whether it will fail.  Its own [init] and the scoped
    configuration it reads are not part of the sources and are left out. *)
Definition init_with (conf : gmap string string) (source : SQLAlchemyExtractor)
    : outcome DruidMetadataExtractor :=
  let conf := with_fallback conf DEFAULT_CONFIG in
  let? c := get_string conf CLUSTER_KEY None in
  let? cluster := Py.format "{}" [c] [] in
  let? w := get_string conf WHERE_CLAUSE_SUFFIX_KEY (Some EmptyString) in
  let? stmt := Py.format SQL_STATEMENT [] [("where_clause_suffix", w)] in
  Return {| _cluster := cluster; sql_stmt := stmt;
            _alchemy_extractor := source; _extract_iter := None |}.

(** [init] with a row source that hands out [results] for the statement and
    then reports the end of its results. *)
Definition init (conf : gmap string string) (results : list (option row))
    : outcome DruidMetadataExtractor :=
  init_with conf {| pending := results; calls := 0; broken := None |}.

(** ** What a run of the extractor returns, as a function of the rows *)

(** The rows that the raw generator yields: the results of the source up
    to the first falsy one. *)
Fixpoint raw_rows (results : list (option row)) : list row :=
  match results with
  | Some d :: rest => if dict_truthy d then d :: raw_rows rest else []
  | _ => []
  end.

(** The entities and the exception, if any, that the generator produces
    once the inner loop has handled [last] (of key [tgt]) and collected
    [cols], when [rs] are the rows still to come. *)
Fixpoint entities_from (cluster : string) (tgt : option TableKey) (last : row)
    (cols : list ColumnMetadata) (rs : list row) : list (outcome TableMetadata) :=
  match rs with
  | [] => [new_table cluster (Some (Dict last)) cols]
  | r :: rs' =>
    match _get_table_key r with
    | Raise e => [Raise e]
    | Return k =>
      if decide (k = tgt) then
        match new_column (Dict r) with
        | Raise e => [Raise e]
        | Return c => entities_from cluster tgt r (cols ++ [c]) rs'
        end
      else
        match new_table cluster (Some (Dict last)) cols with
        | Raise e => [Raise e]
        | Return t =>
          Return t ::
          match new_column (Dict r) with
          | Raise e => [Raise e]
          | Return c => entities_from cluster k r [c] rs'
          end
        end
    end
  end.

Definition entities (cluster : string) (rs : list row)
    : list (outcome TableMetadata) :=
  match rs with
  | [] => []
  | r :: rs' =>
    match _get_table_key r with
    | Raise e => [Raise e]
    | Return k =>
      match new_column (Dict r) with
      | Raise e => [Raise e]
      | Return c => entities_from cluster k r [c] rs'
      end
    end
  end.

(** What [extract] makes of one [next()] on the generator. *)
Definition to_result (o : outcome TableMetadata) : outcome (option TableMetadata) :=
  match o with
  | Return t => Return (Some t)
  | Raise StopIteration => Return None
  | Raise e => Raise e
  end.

(** The first [n] results of a run whose generator produces [os]: what
    becomes of the outcomes, then [None] for ever. *)
Fixpoint results_of (n : nat) (os : list (outcome TableMetadata))
    : list (outcome (option TableMetadata)) :=
  match n with
  | O => []
  | S n' =>
    match os with
    | [] => Return None :: results_of n' []
    | o :: os' => to_result o :: results_of n' os'
    end
  end.

Definition mk_heap (p : list (option row)) (c : nat) (fin : bool)
    (tgt ck : gkey) (cv : obj) (i : nat) : heap :=
  {| alch := {| pending := p; calls := c; broken := None |};
     grp := {| it_finished := fin; tgtkey := tgt; currkey := ck;
               currvalue := cv; gid := i |} |}.

Definition mk_self (cluster sql : string) (a : SQLAlchemyExtractor)
    (it : option generator) : DruidMetadataExtractor :=
  {| _cluster := cluster; sql_stmt := sql; _alchemy_extractor := a;
     _extract_iter := it |}.

Definition started (tgt : option TableKey) (i : nat) : grouper :=
  {| grouper_tgtkey := KVal tgt; grouper_id := i; grouper_started := true |}.
Definition unstarted (tgt : option TableKey) (i : nat) : grouper :=
  {| grouper_tgtkey := KVal tgt; grouper_id := i; grouper_started := false |}.

(** The rest of a pass of the generator after its inner loop, followed by
    [n] more calls of [extract()]. *)
Definition finish_pass (cluster sql : string) (n : nat)
    (res : outcome (list ColumnMetadata * option obj) * heap)
    : list (outcome (option TableMetadata)) :=
  match res with
  | (Return (columns, last_row), h) =>
    match new_table cluster last_row columns with
    | Return t =>
      Return (Some t) ::
      (extract_n n (mk_self cluster sql (alch h)
                      (Some (GenSuspended (grp h) last_row)))).1
    | Raise e =>
      to_result (Raise e) ::
      (extract_n n (mk_self cluster sql (alch h) (Some GenFinished))).1
    end
  | (Raise e, h) =>
    to_result (Raise e) ::
    (extract_n n (mk_self cluster sql (alch h) (Some GenFinished))).1
  end.

Definition falsy_head (p : list (option row)) : Prop :=
  match p with [] => True | r :: _ => truthy r = false end.

(** ** Runs of rows and the tables they stand for *)

Definition expected_fields : list string :=
  ["schema"; "name"; "col_name"; "col_type"; "col_sort_order"].

(** A row with all the columns that the statement selects. *)
Definition well_formed (r : row) : Prop :=
  Forall (λ k, is_Some (r !! k)) expected_fields.

(** The Table Key of a row, read off the row itself. *)
Definition table_key (r : row) : option value * option value :=
  (r !! "schema", r !! "name").

(** The maximal contiguous runs of elements with equal keys, in order. *)
Fixpoint runs_by {A K : Type} `{EqDecision K} (key : A → K) (l : list A)
    : list (list A) :=
  match l with
  | [] => []
  | x :: l' =>
    match runs_by key l' with
    | (y :: run) :: rest =>
      if decide (key x = key y) then (x :: y :: run) :: rest
      else [x] :: (y :: run) :: rest
    | _ => [[x]]
    end
  end.

Definition runs : list row → list (list row) := runs_by table_key.

Definition cell (r : row) (k : string) : value := default VNone (r !! k).

Definition column_of_row (r : row) : ColumnMetadata :=
  {| col_name := cell r "col_name"; col_description := EmptyString;
     col_type := cell r "col_type"; col_sort_order := cell r "col_sort_order" |}.

(** The table that a run stands for: identified by its last row, with one
    column per row. *)
Definition table_of_run (cluster : string) (run : list row) : TableMetadata :=
  let r := default ∅ (last run) in
  {| tm_database := "druid"; tm_cluster := cluster;
     tm_schema := cell r "schema"; tm_name := cell r "name";
     tm_description := EmptyString; tm_columns := column_of_row <$> run |}.

(** The key that [_get_table_key] computes for a well-formed row. *)
Definition key_of (r : row) : option TableKey :=
  Some {| schema := cell r "schema"; table_name := cell r "name" |}.

Ltac field_in :=
  repeat first [ apply list_elem_of_here | apply list_elem_of_further ].

(** ** The statement and the configuration *)

(** The statement up to and including the FROM clause and its line end. *)
Definition select_from_clause : string :=
  Py.join_lines
    [ EmptyString;
      "SELECT";
      "TABLE_SCHEMA as schema,";
      "TABLE_NAME as name,";
      "COLUMN_NAME as col_name,";
      "DATA_TYPE as col_type,";
      "ORDINAL_POSITION as col_sort_order";
      "FROM INFORMATION_SCHEMA.COLUMNS";
      EmptyString ].

(** The statement from the line end before the ORDER BY clause on. *)
Definition order_by_clause : string :=
  Py.join_lines
    [ EmptyString;
      "order by TABLE_SCHEMA, TABLE_NAME, CAST(ORDINAL_POSITION AS int)";
      EmptyString ].

(** ** Facts about every state *)

(** The bound on the rows that the raw generator can still yield. *)
Definition mu (h : heap) : nat :=
  if it_finished (grp h) then 0 else S (length (pending (alch h))).

(** [m] keeps a property of the source and of the raw generator's state. *)
Definition preserves {A} (I : SQLAlchemyExtractor → bool → Prop) (m : M A) : Prop :=
  ∀ h, I (alch h) (it_finished (grp h)) →
       I (alch (m h).2) (it_finished (grp (m h).2)).

(** ** The order of the statement's ORDER BY clause *)

(** What the statement sorts a row by: schema, table name and the ordinal
    position as an integer; defined for rows that hold two strings and an
    integer there. *)
Definition sort_key (r : row) : option (string * string * Z) :=
  match r !! "schema", r !! "name", r !! "col_sort_order" with
  | Some (VStr s), Some (VStr t), Some (VInt n) => Some (s, t, n)
  | _, _, _ => None
  end.

(** Lexicographic order on sort keys. *)
Definition key_le (a b : string * string * Z) : Prop :=
  (String.le a.1.1 b.1.1 ∧ a.1.1 ≠ b.1.1)
  ∨ (a.1.1 = b.1.1
     ∧ ((String.le a.1.2 b.1.2 ∧ a.1.2 ≠ b.1.2)
        ∨ (a.1.2 = b.1.2 ∧ (a.2 ≤ b.2)%Z))).

Definition row_le (r1 r2 : row) : Prop :=
  match sort_key r1, sort_key r2 with
  | Some a, Some b => key_le a b
  | _, _ => False
  end.

(** The rows come in the order of the ORDER BY clause. *)
Definition sorted_rows (rows : list row) : Prop := Sorted row_le rows.

(** What identifies the table of a run: the key of its first row. *)
Definition run_id (run : list row) : option (option value * option value) :=
  table_key <$> head run.

(** ** What the spec says of rows, tables and columns *)

(** The column carries the name, type and position of the row. *)
Definition column_matches (r : row) (c : ColumnMetadata) : Prop :=
  r !! "col_name" = Some (col_name c)
  ∧ r !! "col_type" = Some (col_type c)
  ∧ r !! "col_sort_order" = Some (col_sort_order c).

(** The table carries the schema and the name of every row of the run. *)
Definition table_matches (run : list row) (t : TableMetadata) : Prop :=
  Forall (λ r, r !! "schema" = Some (tm_schema t) ∧ r !! "name" = Some (tm_name t)) run.

(** A non-empty stretch of rows of the table with key [k]. *)
Definition run_of (k : option value * option value) (run : list row) : Prop :=
  run ≠ [] ∧ Forall (λ r, table_key r = k) run.

(** The row, if there is one, is not of the table with key [k]. *)
Definition not_of (k : option value * option value) (o : option row) : Prop :=
  ∀ r, o = Some r → table_key r ≠ k.

(** What [extract()] may return in every state: a table of database
    [druid] without descriptions, the sentinel or an exception. *)
Definition emitted_ok (r : outcome (option TableMetadata)) : Prop :=
  match r with
  | Return (Some t) =>
    tm_database t = "druid" ∧ tm_description t = EmptyString
    ∧ Forall (λ c, col_description c = EmptyString) (tm_columns t)
  | _ => True
  end.

Definition stamped (cluster : string) (r : outcome (option TableMetadata)) : Prop :=
  match r with
  | Return (Some t) => tm_cluster t = cluster
  | _ => True
  end.

(** [n] successive [next()] on the raw generator. *)
Fixpoint raw_next_n (n : nat) (h : heap) : list (outcome row) * heap :=
  match n with
  | O => ([], h)
  | S n' =>
    let '(r, h') := _get_raw_extract_iter_next h in
    let '(rs, h'') := raw_next_n n' h' in
    (r :: rs, h'')
  end.

(** ** The source after a falsy result *)

(** The source has handed out [n] truthy rows and then the falsy [f]; [post]
    is what followed [f] in its result set.  Either the raw generator is
    still before [f], or it has taken [f], has returned, and [post] is left
    as it was. *)
Definition source_kept (n : nat) (f : option row) (post : list (option row))
    (a : SQLAlchemyExtractor) (fin : bool) : Prop :=
  (fin = false
   ∧ ∃ l, pending a = (Some <$> l) ++ f :: post
          ∧ Forall (λ d, dict_truthy d = true) l ∧ calls a + length l = n)
  ∨ (fin = true ∧ pending a = post ∧ calls a = S n).

Definition generator_kept (n : nat) (f : option row) (post : list (option row))
    (gen : generator) (a : SQLAlchemyExtractor) : Prop :=
  match gen with
  | GenCreated => source_kept n f post a false
  | GenSuspended g _ => source_kept n f post a (it_finished g)
  | GenFinished => ∃ fin, source_kept n f post a fin
  end.

Definition extractor_kept (n : nat) (f : option row) (post : list (option row))
    (self : DruidMetadataExtractor) : Prop :=
  generator_kept n f post
    (match _extract_iter self with
     | None => _get_extract_iter
     | Some gen => gen
     end)
    (_alchemy_extractor self).

(** ** Example inputs *)

Definition row_of (s t c ty : string) (n : Z) : row :=
  {[ "schema" := VStr s; "name" := VStr t; "col_name" := VStr c;
     "col_type" := VStr ty; "col_sort_order" := VInt n ]}.

(** The rows of the spec's scenario: two columns of [s1.t1], one of [s1.t2]. *)
Definition scenario : list row :=
  [ row_of "s1" "t1" "a" "STRING" 1; row_of "s1" "t1" "b" "LONG" 2;
    row_of "s1" "t2" "c" "STRING" 1 ].

(** Rows of [s1.t1] on both sides of a row of [s1.t2]. *)
Definition interleaved : list row :=
  [ row_of "s1" "t1" "a" "STRING" 1; row_of "s1" "t2" "c" "STRING" 1;
    row_of "s1" "t1" "b" "LONG" 2 ].

(** A row of [s1.t2] without its column name. *)
Definition nameless : row :=
  {[ "schema" := VStr "s1"; "name" := VStr "t2"; "col_type" := VStr "LONG";
     "col_sort_order" := VInt 2 ]}.

Definition column (n ty : string) (pos : Z) : ColumnMetadata :=
  {| col_name := VStr n; col_description := EmptyString; col_type := VStr ty;
     col_sort_order := VInt pos |}.

Definition table (cluster s t : string) (cols : list ColumnMetadata)
    : TableMetadata :=
  {| tm_database := "druid"; tm_cluster := cluster; tm_schema := VStr s;
     tm_name := VStr t; tm_description := EmptyString; tm_columns := cols |}.

(** What the first [n] calls of [extract()] return after [init]. *)
Definition first_results (conf : gmap string string) (results : list (option row))
    (n : nat) : list (outcome (option TableMetadata)) :=
  match init conf results with
  | Return e => (extract_n n e).1
  | Raise e => [Raise e]
  end.

Global Instance well_formed_dec r : Decision (well_formed r).
Proof. unfold well_formed. apply _. Defined.

Global Instance key_le_dec : RelDecision key_le.
Proof. intros a b. unfold key_le. apply _. Defined.

Global Instance row_le_dec : RelDecision row_le.
Proof.
  intros r1 r2. unfold row_le.
  destruct (sort_key r1), (sort_key r2); apply _.
Defined.

Global Instance sorted_rows_dec rows : Decision (sorted_rows rows).
Proof. unfold sorted_rows. apply _. Defined.

Ltac by_computation := apply (bool_decide_unpack _); vm_compute; exact I.

(** ** Further properties: what they speak of *)

(** An exception of [extract()] is a lookup failure on an expected field. *)
Definition lookup_failure (r : outcome (option TableMetadata)) : Prop :=
  match r with
  | Raise e => ∃ k, e = KeyError k ∧ k ∈ expected_fields
  | Return _ => True
  end.

(** The number of columns of the tables among the results. *)
Definition columns_returned (rs : list (outcome (option TableMetadata))) : nat :=
  sum_list ((λ r, match r with
                  | Return (Some t) => length (tm_columns t)
                  | _ => 0
                  end) <$> rs).

Definition is_table (r : outcome (option TableMetadata)) : Prop :=
  match r with
  | Return (Some _) => True
  | _ => False
  end.

(** The cursor of [groupby] between two passes of the generator: it holds
    the first row of the next group, or the raw generator has returned. *)
Definition groupby_ahead (g : groupby) : Prop :=
  (it_finished g = false ∧ ∃ k, currkey g = KVal k ∧ KVal k ≠ tgtkey g)
  ∨ (it_finished g = true ∧ currkey g = tgtkey g).

(** The generator has put [m] rows into the tables it has yielded, and the
    source, one that reports the end of its results, has been called once
    more than that. *)
Definition generator_lazy (m : nat) (gen : generator) (a : SQLAlchemyExtractor)
    : Prop :=
  match gen with
  | GenCreated => calls a = m ∧ broken a = None
  | GenSuspended g _ => groupby_ahead g ∧ calls a = S m ∧ broken a = None
  | GenFinished => False
  end.

Definition extractor_lazy (m : nat) (self : DruidMetadataExtractor) : Prop :=
  generator_lazy m
    (match _extract_iter self with
     | None => _get_extract_iter
     | Some gen => gen
     end)
    (_alchemy_extractor self).

(** The source has [n] rows to yield in all: while the raw generator runs,
    the calls made and the rows still to come add up to [n]; once it has
    returned, one call more has been made, and that is all. *)
Definition source_bounded (n : nat) (a : SQLAlchemyExtractor) (fin : bool) : Prop :=
  if fin then calls a ≤ S n
  else calls a + length (raw_rows (pending a)) = n.

Definition generator_bounded (n : nat) (gen : generator) (a : SQLAlchemyExtractor)
    : Prop :=
  match gen with
  | GenCreated => source_bounded n a false
  | GenSuspended g _ => source_bounded n a (it_finished g)
  | GenFinished => calls a ≤ S n
  end.

Definition extractor_bounded (n : nat) (self : DruidMetadataExtractor) : Prop :=
  generator_bounded n
    (match _extract_iter self with
     | None => _get_extract_iter
     | Some gen => gen
     end)
    (_alchemy_extractor self).

(** Two rows agree on the five expected fields. *)
Definition same_fields (a b : row) : Prop :=
  Forall (λ k, a !! k = b !! k) expected_fields.

Global Instance same_fields_dec a b : Decision (same_fields a b).
Proof. unfold same_fields. apply _. Defined.

(** The scenario with a column that the statement does not select. *)
Definition scenario_with_comment : list row :=
  (λ r : row, <["comment" := VStr "n/a"]> r) <$> scenario.

Definition lacks (r : row) (k : string) : bool :=
  match r !! k with
  | None => true
  | Some _ => false
  end.

(** The first of the expected fields, in the order in which the code reads
    them, that a row lacks. *)
Definition first_missing (r : row) : option string :=
  List.find (lacks r) expected_fields.

Definition raises_only (k : string) (o : outcome TableMetadata) : Prop :=
  match o with
  | Raise e => e = KeyError k
  | Return _ => True
  end.

Definition fails_only_with (k : string) (r : outcome (option TableMetadata)) : Prop :=
  match r with
  | Raise e => e = KeyError k
  | Return _ => True
  end.

(** ** Exceptions: what they speak of *)

(** What a step of the generator may raise when the source is one that
    raises [b] in the place of the end of its results: the end of an
    iteration, the end of a loop's budget, a lookup failure on an expected
    field, or the failure of the source. *)
Definition step_failure (b : option string) (e : exn) : Prop :=
  e = StopIteration ∨ e = OutOfFuel
  ∨ (∃ k, e = KeyError k ∧ k ∈ expected_fields)
  ∨ (∃ msg, b = Some msg ∧ e = SourceError msg).

(** From a heap with [P] the step [m] returns with [Q], or raises one of
    those. *)
Definition triple {A} (b : option string) (P : heap → Prop) (m : M A)
    (Q : A → heap → Prop) : Prop :=
  ∀ h, P h →
       match m h with
       | (Return a, h') => Q a h'
       | (Raise e, _) => step_failure b e
       end.

(** [groupby] holds a row; [last_row] is bound to a row. *)
Definition holds_row (g : groupby) : Prop := ∃ d, currvalue g = Dict d.
Definition is_row (lr : option obj) : Prop := ∃ d, lr = Some (Dict d).

(** The heap of a source that raises [b], with a row in [groupby]. *)
Definition row_held (b : option string) (h : heap) : Prop :=
  broken (alch h) = b ∧ holds_row (grp h).

(** The heap before [groupby.__next__]: a row is held, or the next one is
    about to be taken. *)
Definition row_due (b : option string) (h : heap) : Prop :=
  broken (alch h) = b
  ∧ (holds_row (grp h) ∨ currkey (grp h) = tgtkey (grp h)).

(** The group is the one that [groupby] has just returned. *)
Definition group_open (gr : grouper) (h : heap) : Prop :=
  grouper_started gr = false ∧ gid (grp h) = grouper_id gr
  ∧ currkey (grp h) = grouper_tgtkey gr.

Definition extractor_sound (self : DruidMetadataExtractor) : Prop :=
  match _extract_iter self with
  | Some (GenSuspended g _) => holds_row g
  | _ => True
  end.

(** An exception of [extract()] is a lookup failure on an expected field or
    the failure [b] of the row source. *)
Definition lookup_or_source_failure (b : option string)
    (r : outcome (option TableMetadata)) : Prop :=
  match r with
  | Raise e => (∃ k, e = KeyError k ∧ k ∈ expected_fields)
               ∨ (∃ msg, b = Some msg ∧ e = SourceError msg)
  | Return _ => True
  end.

(** A source that hands out the first row of the scenario and then loses
    its connection. *)
Definition lost_connection : SQLAlchemyExtractor :=
  {| pending := [Some (row_of "s1" "t1" "a" "STRING" 1)]; calls := 0;
     broken := Some "connection lost" |}.


(** No exception. *)
Definition no_failure (r : outcome (option TableMetadata)) : Prop :=
  match r with
  | Return _ => True
  | Raise _ => False
  end.

(** Results with an empty row between two rows. *)
Definition empty_row_input : list (option row) :=
  [ Some (row_of "s1" "t1" "a" "STRING" 1); Some ∅;
    Some (row_of "s1" "t2" "c" "STRING" 1) ].

(** What may follow the scenario: a row without its column name, an empty
    row, the end of the results, one more row. *)
Definition mixed_tail : list (option row) :=
  [ Some nameless; Some ∅; None; Some (row_of "s1" "t3" "e" "LONG" 1) ].

(** * Proofs *)

Section Steps.

Lemma raw_next_finished p c tgt ck cv i :
  _get_raw_extract_iter_next (mk_heap p c true tgt ck cv i)
  = (Raise StopIteration, mk_heap p c true tgt ck cv i).
Proof. reflexivity. Qed.

Lemma raw_next_yield d p c tgt ck cv i :
  dict_truthy d = true →
  _get_raw_extract_iter_next (mk_heap (Some d :: p) c false tgt ck cv i)
  = (Return d, mk_heap p (S c) false tgt ck cv i).
Proof.
  intros Hd. unfold _get_raw_extract_iter_next, bind; simpl.
  by rewrite Hd.
Qed.

Lemma raw_next_falsy r p c tgt ck cv i :
  truthy r = false →
  _get_raw_extract_iter_next (mk_heap (r :: p) c false tgt ck cv i)
  = (Raise StopIteration, mk_heap p (S c) true tgt ck cv i).
Proof.
  intros Hr. unfold _get_raw_extract_iter_next, bind; simpl.
  destruct r as [d|]; simpl in *; [by rewrite Hr | done].
Qed.

Lemma raw_next_empty c tgt ck cv i :
  _get_raw_extract_iter_next (mk_heap [] c false tgt ck cv i)
  = (Raise StopIteration, mk_heap [] (S c) true tgt ck cv i).
Proof. reflexivity. Qed.

(** The exceptions of the key function and of the constructors are
    lookup failures on one of the expected fields. *)
Lemma getitem_raise d k e :
  getitem d k = Raise e → e = KeyError k ∧ d !! k = None.
Proof. unfold getitem. destruct (d !! k); naive_solver. Qed.

Lemma get_table_key_raise r e :
  _get_table_key r = Raise e →
  ∃ k, e = KeyError k ∧ r !! k = None ∧ k ∈ ["schema"; "name"].
Proof.
  unfold _get_table_key. destruct (dict_truthy r); [|done].
  destruct (getitem r "schema") eqn:Hs; simpl.
  - destruct (getitem r "name") eqn:Hn; simpl; [done|].
    intros [= <-]. apply getitem_raise in Hn as [-> ?].
    exists "name". set_solver.
  - intros [= <-]. apply getitem_raise in Hs as [-> ?].
    exists "schema". set_solver.
Qed.

Lemma new_column_raise r e :
  new_column (Dict r) = Raise e →
  ∃ k, e = KeyError k ∧ r !! k = None
       ∧ k ∈ ["col_name"; "col_type"; "col_sort_order"].
Proof.
  unfold new_column; simpl.
  destruct (getitem r "col_name") eqn:H1; simpl.
  - destruct (getitem r "col_type") eqn:H2; simpl.
    + destruct (getitem r "col_sort_order") eqn:H3; simpl; [done|].
      intros [= <-]. apply getitem_raise in H3 as [-> ?].
      exists "col_sort_order". set_solver.
    + intros [= <-]. apply getitem_raise in H2 as [-> ?].
      exists "col_type". set_solver.
  - intros [= <-]. apply getitem_raise in H1 as [-> ?].
    exists "col_name". set_solver.
Qed.

Lemma new_table_raise cluster r cols e :
  new_table cluster (Some (Dict r)) cols = Raise e →
  ∃ k, e = KeyError k ∧ r !! k = None ∧ k ∈ ["schema"; "name"].
Proof.
  unfold new_table; simpl.
  destruct (getitem r "schema") eqn:Hs; simpl.
  - destruct (getitem r "name") eqn:Hn; simpl; [done|].
    intros [= <-]. apply getitem_raise in Hn as [-> ?].
    exists "name". set_solver.
  - intros [= <-]. apply getitem_raise in Hs as [-> ?].
    exists "schema". set_solver.
Qed.

Lemma for_started_end f tgt i cols lr p c tgt0 ck cv :
  match p with [] => True | r :: _ => truthy r = false end →
  for_row_in_group (S f) (started tgt i) cols lr (mk_heap p c false tgt0 ck cv i)
  = (Return (cols, lr), mk_heap (tail p) (S c) true tgt0 ck cv i).
Proof.
  intros Hp. simpl. unfold grouper_next, bind; simpl.
  destruct p as [|r p]; [by rewrite raw_next_empty|].
  by rewrite raw_next_falsy.
Qed.

Lemma for_started_key_error f tgt i cols lr r p c tgt0 ck cv e :
  dict_truthy r = true → _get_table_key r = Raise e →
  for_row_in_group (S f) (started tgt i) cols lr
    (mk_heap (Some r :: p) c false tgt0 ck cv i)
  = (Raise e, mk_heap p (S c) false tgt0 ck (Dict r) i).
Proof.
  intros Hr Hk. simpl. unfold grouper_next, bind; simpl.
  rewrite raw_next_yield by done.
  unfold groupby_store, bind, lift, modify_grp, bind; simpl. rewrite Hk.
  apply get_table_key_raise in Hk as (k & -> & _). done.
Qed.

Lemma for_started_other f tgt i cols lr r p c tgt0 ck cv k :
  dict_truthy r = true → _get_table_key r = Return k → k ≠ tgt →
  for_row_in_group (S f) (started tgt i) cols lr
    (mk_heap (Some r :: p) c false tgt0 ck cv i)
  = (Return (cols, lr), mk_heap p (S c) false tgt0 (KVal k) (Dict r) i).
Proof.
  intros Hr Hk Hne. simpl. unfold grouper_next, bind; simpl.
  rewrite raw_next_yield by done.
  unfold groupby_store, bind, lift, modify_grp, bind; simpl. rewrite Hk.
  unfold grouper_test, bind; simpl.
  rewrite bool_decide_eq_true_2 by done.
  rewrite bool_decide_eq_false_2 by congruence. done.
Qed.

Lemma for_started_same f tgt i cols lr r p c tgt0 ck cv :
  dict_truthy r = true → _get_table_key r = Return tgt →
  for_row_in_group (S f) (started tgt i) cols lr
    (mk_heap (Some r :: p) c false tgt0 ck cv i)
  = match new_column (Dict r) with
    | Return col =>
      for_row_in_group f (started tgt i) (cols ++ [col]) (Some (Dict r))
        (mk_heap p (S c) false tgt0 (KVal tgt) (Dict r) i)
    | Raise e => (Raise e, mk_heap p (S c) false tgt0 (KVal tgt) (Dict r) i)
    end.
Proof.
  intros Hr Hk. simpl. unfold grouper_next, bind; simpl.
  rewrite raw_next_yield by done.
  unfold groupby_store, bind, lift, modify_grp, bind; simpl. rewrite Hk.
  unfold grouper_test, bind; simpl.
  rewrite !bool_decide_eq_true_2 by done. simpl.
  destruct (new_column (Dict r)); done.
Qed.

Lemma for_unstarted f tgt i cols lr r p c fin tgt0 :
  for_row_in_group (S f) (unstarted tgt i) cols lr
    (mk_heap p c fin tgt0 (KVal tgt) (Dict r) i)
  = match new_column (Dict r) with
    | Return col =>
      for_row_in_group f (started tgt i) (cols ++ [col]) (Some (Dict r))
        (mk_heap p c fin tgt0 (KVal tgt) (Dict r) i)
    | Raise e => (Raise e, mk_heap p c fin tgt0 (KVal tgt) (Dict r) i)
    end.
Proof.
  simpl. unfold grouper_next, grouper_test, bind; simpl.
  rewrite !bool_decide_eq_true_2 by done. simpl.
  destruct (new_column (Dict r)); done.
Qed.

Lemma results_of_nil n : results_of n [] = replicate n (Return None).
Proof. induction n; simpl; congruence. Qed.

Lemma extract_finished cluster sql a :
  extract (mk_self cluster sql a (Some GenFinished))
  = (Return None, mk_self cluster sql a (Some GenFinished)).
Proof. reflexivity. Qed.

Lemma extract_n_finished n cluster sql a :
  extract_n n (mk_self cluster sql a (Some GenFinished))
  = (replicate n (Return None), mk_self cluster sql a (Some GenFinished)).
Proof.
  induction n as [|n IH]; [done|].
  cbn [extract_n]. rewrite extract_finished, IH. done.
Qed.

Lemma extract_n_resume n cluster sql a g lr :
  (extract_n (S n) (mk_self cluster sql a (Some (GenSuspended g lr)))).1
  = match groupby_next {| alch := a; grp := g |} with
    | (Return (_, group), h) =>
      finish_pass cluster sql n
        (for_row_in_group (2 + length (pending (alch h))) group [] lr h)
    | (Raise e, h) =>
      to_result (Raise e) ::
      (extract_n n (mk_self cluster sql (alch h) (Some GenFinished))).1
    end.
Proof.
  cbn [extract_n]. unfold extract, mk_self.
  cbn [_extract_iter _cluster sql_stmt _alchemy_extractor].
  unfold _get_extract_iter_next, resume, outer_pass.
  unfold bind at 1.
  destruct (groupby_next _) as [[[key group]|e] h]; cycle 1.
  { destruct e; by destruct (extract_n n _). }
  unfold bind at 1. unfold loop_budget at 1. cbn beta iota.
  unfold bind at 1. unfold finish_pass, mk_self.
  destruct (for_row_in_group _ _ _ _ _) as [[[cols lr']|e] h']; cycle 1.
  { destruct e; by destruct (extract_n n _). }
  unfold bind, lift, ret.
  destruct (new_table cluster lr' cols) as [t|e].
  - by destruct (extract_n n _).
  - destruct e; by destruct (extract_n n _).
Qed.

Lemma groupby_next_ahead p c fin tgt0 k cv i :
  KVal k ≠ tgt0 →
  groupby_next (mk_heap p c fin tgt0 (KVal k) cv i)
  = (Return (KVal k, unstarted k (S i)),
     mk_heap p c fin (KVal k) (KVal k) cv (S i)).
Proof.
  intros Hne. unfold groupby_next, bind, loop_budget; simpl.
  unfold bind; simpl. by rewrite bool_decide_eq_false_2.
Qed.

Lemma groupby_next_exhausted p c k cv i :
  groupby_next (mk_heap p c true k k cv i)
  = (Raise StopIteration, mk_heap p c true k k cv (S i)).
Proof.
  unfold groupby_next, bind, loop_budget; simpl.
  unfold bind; simpl. by rewrite bool_decide_eq_true_2.
Qed.

Lemma groupby_next_fresh_end p c :
  match p with [] => True | r :: _ => truthy r = false end →
  groupby_next {| alch := {| pending := p; calls := c; broken := None |};
                  grp := groupby_new |}
  = (Raise StopIteration, mk_heap (tail p) (S c) true KSentinel KSentinel Object 1).
Proof.
  intros Hp. unfold groupby_next, bind, loop_budget; simpl.
  unfold bind; simpl.
  change {| alch := _; grp := set_gid 1 groupby_new |}
    with (mk_heap p c false KSentinel KSentinel Object 1).
  destruct p as [|r p]; [by rewrite raw_next_empty|].
  by rewrite raw_next_falsy.
Qed.

Lemma groupby_next_fresh_key_error r p c e :
  dict_truthy r = true → _get_table_key r = Raise e →
  groupby_next {| alch := {| pending := Some r :: p; calls := c; broken := None |};
                  grp := groupby_new |}
  = (Raise e, mk_heap p (S c) false KSentinel KSentinel (Dict r) 1).
Proof.
  intros Hr Hk. unfold groupby_next, bind, loop_budget; simpl.
  unfold bind; simpl.
  change {| alch := _; grp := set_gid 1 groupby_new |}
    with (mk_heap (Some r :: p) c false KSentinel KSentinel Object 1).
  rewrite raw_next_yield by done.
  unfold groupby_store, bind, lift, modify_grp, bind; simpl. by rewrite Hk.
Qed.

Lemma groupby_next_fresh_row r p c k :
  dict_truthy r = true → _get_table_key r = Return k →
  groupby_next {| alch := {| pending := Some r :: p; calls := c; broken := None |};
                  grp := groupby_new |}
  = (Return (KVal k, unstarted k 1),
     mk_heap p (S c) false (KVal k) (KVal k) (Dict r) 1).
Proof.
  intros Hr Hk. unfold groupby_next, bind, loop_budget; simpl.
  unfold bind; simpl.
  change {| alch := _; grp := set_gid 1 groupby_new |}
    with (mk_heap (Some r :: p) c false KSentinel KSentinel Object 1).
  rewrite raw_next_yield by done.
  unfold groupby_store, bind, lift, modify_grp, bind; simpl. by rewrite Hk.
Qed.

(** A suspended generator whose raw generator has returned yields
    nothing more. *)
Lemma extract_n_exhausted n cluster sql p c k cv i lr :
  (extract_n n (mk_self cluster sql {| pending := p; calls := c; broken := None |}
     (Some (GenSuspended
        {| it_finished := true; tgtkey := k; currkey := k;
           currvalue := cv; gid := i |} lr)))).1
  = replicate n (Return None).
Proof.
  destruct n as [|n]; [done|].
  rewrite extract_n_resume.
  fold (mk_heap p c true k k cv i). rewrite groupby_next_exhausted.
  cbn [to_result]. by rewrite extract_n_finished.
Qed.

(** The inner loop, the rest of its pass and the calls that follow
    return what [entities_from] says. *)
Lemma finish_pass_entities cluster sql rs :
  ∀ n fuel tgt last cols rest c cv i,
    Forall (λ d, dict_truthy d = true) rs →
    falsy_head rest →
    length rs < fuel →
    finish_pass cluster sql n
      (for_row_in_group fuel (started tgt i) cols (Some (Dict last))
         (mk_heap ((Some <$> rs) ++ rest) c false (KVal tgt) (KVal tgt) cv i))
    = results_of (S n) (entities_from cluster tgt last cols rs).
Proof.
  induction rs as [|r rs IH]; intros n fuel tgt last cols rest c cv i Hrs Hrest Hfuel;
    (destruct fuel as [|fuel]; [simpl in Hfuel; lia|]).
  - cbn [fmap list_fmap app entities_from].
    rewrite for_started_end by done. unfold finish_pass, mk_heap; cbn [alch grp].
    destruct (new_table _ _ _) as [t|e]; cbn [results_of].
    + by rewrite extract_n_exhausted, results_of_nil.
    + by rewrite extract_n_finished, results_of_nil.
  - apply Forall_cons in Hrs as [Hr Hrs]. simpl in Hfuel.
    cbn [fmap list_fmap app entities_from]. change (list_fmap _ _ ?f ?l) with (f <$> l).
    destruct (_get_table_key r) as [k|e] eqn:Hk; cycle 1.
    { rewrite (for_started_key_error _ _ _ _ _ _ _ _ _ _ _ e) by done.
      unfold finish_pass. cbn [results_of].
      by rewrite extract_n_finished, results_of_nil. }
    destruct (decide (k = tgt)) as [->|Hne].
    + rewrite for_started_same by done.
      destruct (new_column (Dict r)) as [col|e].
      * apply IH; [done..|lia].
      * unfold finish_pass. cbn [results_of].
        by rewrite extract_n_finished, results_of_nil.
    + rewrite (for_started_other _ _ _ _ _ _ _ _ _ _ _ k) by done.
      unfold finish_pass, mk_heap; cbn [alch grp].
      destruct (new_table _ _ _) as [t|e]; cbn [results_of to_result]; cycle 1.
      { by rewrite extract_n_finished, results_of_nil. }
      f_equal. destruct n as [|n]; [done|].
      rewrite extract_n_resume.
      fold (mk_heap ((Some <$> rs) ++ rest) (S c) false (KVal tgt) (KVal k) (Dict r) i).
      rewrite groupby_next_ahead by congruence.
      unfold mk_heap at 1; cbn [alch pending plus].
      rewrite for_unstarted.
      destruct (new_column (Dict r)) as [col|e].
      * apply IH; [done..|]. rewrite length_app, length_fmap. lia.
      * unfold finish_pass. cbn [results_of].
        by rewrite extract_n_finished, results_of_nil.
Qed.

Lemma extract_n_start n cluster sql a :
  (extract_n (S n) (mk_self cluster sql a None)).1
  = match groupby_next {| alch := a; grp := groupby_new |} with
    | (Return (_, group), h) =>
      finish_pass cluster sql n
        (for_row_in_group (2 + length (pending (alch h))) group [] None h)
    | (Raise e, h) =>
      to_result (Raise e) ::
      (extract_n n (mk_self cluster sql (alch h) (Some GenFinished))).1
    end.
Proof.
  cbn [extract_n]. unfold extract, mk_self.
  cbn [_extract_iter _cluster sql_stmt _alchemy_extractor].
  unfold _get_extract_iter, _get_extract_iter_next, resume, outer_pass.
  unfold bind at 1.
  destruct (groupby_next _) as [[[key group]|e] h]; cycle 1.
  { destruct e; by destruct (extract_n n _). }
  unfold bind at 1. unfold loop_budget at 1. cbn beta iota.
  unfold bind at 1. unfold finish_pass, mk_self.
  destruct (for_row_in_group _ _ _ _ _) as [[[cols lr']|e] h']; cycle 1.
  { destruct e; by destruct (extract_n n _). }
  unfold bind, lift, ret.
  destruct (new_table cluster lr' cols) as [t|e].
  - by destruct (extract_n n _).
  - destruct e; by destruct (extract_n n _).
Qed.

Lemma raw_rows_truthy results :
  Forall (λ d, dict_truthy d = true) (raw_rows results).
Proof.
  induction results as [|[d|] results IH]; simpl; [done| |done].
  destruct (dict_truthy d) eqn:Hd; [|done]. by constructor.
Qed.

Lemma raw_rows_split results :
  ∃ rest, results = (Some <$> raw_rows results) ++ rest ∧ falsy_head rest.
Proof.
  induction results as [|[d|] results (rest & IH & Hrest)]; simpl.
  - by exists [].
  - destruct (dict_truthy d) eqn:Hd.
    + exists rest. split; [|done].
      rewrite fmap_cons, <-app_comm_cons. by f_equal.
    + by exists (Some d :: results).
  - by exists (None :: results).
Qed.

(** The results of [n] calls of [extract()] on an extractor that has just
    been initialised. *)
Lemma extract_n_entities n cluster sql results c :
  (extract_n n (mk_self cluster sql {| pending := results; calls := c; broken := None |} None)).1
  = results_of n (entities cluster (raw_rows results)).
Proof.
  destruct n as [|n]; [done|].
  rewrite extract_n_start.
  destruct (raw_rows_split results) as (rest & Hsplit & Hrest).
  pose proof (raw_rows_truthy results) as Htruthy.
  rewrite Hsplit at 1. destruct (raw_rows results) as [|r rs].
  { simpl. rewrite groupby_next_fresh_end by done.
    by rewrite extract_n_finished, results_of_nil. }
  apply Forall_cons in Htruthy as [Hr Hrs].
  cbn [fmap list_fmap app entities]. change (list_fmap _ _ ?f ?l) with (f <$> l).
  destruct (_get_table_key r) as [k|e] eqn:Hk; cycle 1.
  { rewrite (groupby_next_fresh_key_error _ _ _ e) by done.
    cbn [results_of]. by rewrite extract_n_finished, results_of_nil. }
  rewrite (groupby_next_fresh_row _ _ _ k) by done.
  unfold mk_heap at 1; cbn [alch pending plus].
  rewrite for_unstarted.
  destruct (new_column (Dict r)) as [col|e].
  - apply finish_pass_entities; [done..|]. rewrite length_app, length_fmap. lia.
  - unfold finish_pass. cbn [results_of].
    by rewrite extract_n_finished, results_of_nil.
Qed.

End Steps.

Section Runs.
Context {A K : Type} `{EqDecision K} (key : A → K).

Lemma runs_by_cons_head x l :
  ∃ run rest, runs_by key (x :: l) = (x :: run) :: rest.
Proof.
  simpl. destruct (runs_by key l) as [|[|y run] rest]; [eauto..|].
  destruct (decide (key x = key y)); eauto.
Qed.

Lemma runs_by_concat l : concat (runs_by key l) = l.
Proof.
  induction l as [|x l IH]; [done|].
  destruct l as [|x' l]; [done|].
  destruct (runs_by_cons_head x' l) as (run & rest & Heq).
  cbn [runs_by] in *. rewrite Heq in *.
  destruct (decide (key x = key x')); simpl in *; by rewrite IH.
Qed.

Lemma runs_by_elem x run l : run ∈ runs_by key l → x ∈ run → x ∈ l.
Proof.
  intros Hrun Hx. rewrite <-(runs_by_concat l).
  induction Hrun as [run rest|run' run rest _ IH]; simpl; apply elem_of_app; auto.
Qed.

Lemma runs_by_nonempty l : Forall (λ run, run ≠ []) (runs_by key l).
Proof.
  induction l as [|x l IH]; [constructor|]. simpl.
  destruct (runs_by key l) as [|[|y run] rest]; [by repeat constructor..|].
  apply Forall_cons in IH as [_ IH].
  destruct (decide (key x = key y)); by repeat constructor.
Qed.

(** Every run is made of elements with one key. *)
Lemma runs_by_homogeneous l :
  Forall (λ run, ∀ x y, x ∈ run → y ∈ run → key x = key y) (runs_by key l).
Proof.
  induction l as [|x l IH]; [constructor|]. simpl.
  destruct (runs_by key l) as [|[|y run] rest].
  - repeat constructor. intros a b ?%list_elem_of_singleton ?%list_elem_of_singleton.
    congruence.
  - repeat constructor. intros a b ?%list_elem_of_singleton ?%list_elem_of_singleton.
    congruence.
  - apply Forall_cons in IH as [Hrun IH].
    destruct (decide (key x = key y)) as [Hxy|Hxy].
    + constructor; [|done].
      assert (∀ a, a ∈ x :: y :: run → key a = key y) as Hall.
      { intros a [->|Ha]%elem_of_cons; [done|]. apply Hrun; [done|left]. }
      intros a b Ha Hb. by rewrite (Hall a), (Hall b).
    + constructor; [|by constructor].
      intros a b ?%list_elem_of_singleton ?%list_elem_of_singleton. congruence.
Qed.

(** Runs are maximal: two runs that follow each other differ in key. *)
Lemma runs_by_maximal l i run1 run2 x y :
  runs_by key l !! i = Some run1 → runs_by key l !! S i = Some run2 →
  last run1 = Some x → head run2 = Some y → key x ≠ key y.
Proof.
  revert i run1 run2 x y.
  induction l as [|a l IH]; intros i run1 run2 x y; [done|].
  destruct l as [|a' l]; [by destruct i|].
  destruct (runs_by_cons_head a' l) as (run & rest & Heq).
  pose proof (IH 0 (a' :: run)) as IH0.
  cbn [runs_by] in *. rewrite Heq in *.
  destruct (decide (key a = key a')) as [Haa|Haa].
  - destruct i as [|i].
    + simpl. intros [= <-] H2 Hx Hy. by eapply (IH0 run2 x y).
    + simpl. intros H1 H2. by apply (IH (S i)).
  - destruct i as [|i].
    + simpl. intros [= <-] [= <-] [= <-] [= <-]. done.
    + simpl. intros H1 H2. by apply (IH i).
Qed.

Lemma runs_by_homog_run run :
  run ≠ [] → (∀ x y, x ∈ run → y ∈ run → key x = key y) →
  runs_by key run = [run].
Proof.
  induction run as [|x run IH]; [done|]. intros _ Hall.
  destruct run as [|y run]; [done|].
  cbn [runs_by]. cbn [runs_by] in IH. rewrite IH; [|done|].
  - rewrite decide_True; [done|]. apply Hall; [left|right; left].
  - intros a b Ha Hb. apply Hall; by right.
Qed.

(** Where the keys differ at the seam, the runs of a concatenation are
    the runs of its parts. *)
Lemma runs_by_app l1 l2 :
  (∀ x y, last l1 = Some x → head l2 = Some y → key x ≠ key y) →
  runs_by key (l1 ++ l2) = runs_by key l1 ++ runs_by key l2.
Proof.
  induction l1 as [|x l1 IH]; [done|]. intros Hseam.
  destruct l1 as [|x' l1].
  - destruct l2 as [|y l2]; [done|].
    destruct (runs_by_cons_head y l2) as (run & rest & Heq).
    cbn [app runs_by] in *. rewrite Heq.
    rewrite decide_False; [done|]. by apply Hseam.
  - destruct (runs_by_cons_head x' l1) as (run & rest & Heq).
    assert (runs_by key ((x' :: l1) ++ l2) = runs_by key (x' :: l1) ++ runs_by key l2)
      as IH'.
    { apply IH. intros a b Ha. apply Hseam. by rewrite last_cons_cons. }
    change ((x :: x' :: l1) ++ l2) with (x :: ((x' :: l1) ++ l2)).
    change (runs_by key (x :: ?l)) with
      (match runs_by key l with
       | (y :: run) :: rest =>
         if decide (key x = key y) then (x :: y :: run) :: rest
         else [x] :: (y :: run) :: rest
       | _ => [[x]]
       end).
    rewrite IH', Heq. simpl. by destruct (decide (key x = key x')).
Qed.

End Runs.

Section Tables.

Lemma well_formed_lookup r k :
  well_formed r → k ∈ expected_fields → r !! k = Some (cell r k).
Proof.
  intros Hwf Hk. unfold cell.
  eapply Forall_forall in Hwf as [v ->]; done.
Qed.

Lemma well_formed_truthy r : well_formed r → dict_truthy r = true.
Proof.
  intros Hwf. apply bool_decide_eq_true_2. intros ->.
  pose proof (well_formed_lookup ∅ "schema" Hwf) as Hs.
  rewrite lookup_empty in Hs. discriminate Hs. by left.
Qed.

Lemma getitem_wf r k :
  well_formed r → k ∈ expected_fields → getitem r k = Return (cell r k).
Proof. intros Hwf Hk. unfold getitem. by rewrite (well_formed_lookup r k). Qed.

Lemma get_table_key_wf r : well_formed r → _get_table_key r = Return (key_of r).
Proof.
  intros Hwf. unfold _get_table_key. rewrite well_formed_truthy by done.
  rewrite !getitem_wf; [done|done|set_solver|done|set_solver].
Qed.

Lemma new_column_wf r : well_formed r → new_column (Dict r) = Return (column_of_row r).
Proof.
  intros Hwf. unfold new_column, subscript.
  rewrite !getitem_wf; [done|done|set_solver|done|set_solver|done|set_solver].
Qed.

Lemma new_table_wf cluster r cols :
  well_formed r →
  new_table cluster (Some (Dict r)) cols
  = Return {| tm_database := "druid"; tm_cluster := cluster;
              tm_schema := cell r "schema"; tm_name := cell r "name";
              tm_description := EmptyString; tm_columns := cols |}.
Proof.
  intros Hwf. unfold new_table, subscript.
  rewrite !getitem_wf; [done|done|set_solver|done|set_solver].
Qed.

Lemma key_of_eq r1 r2 :
  well_formed r1 → well_formed r2 →
  key_of r1 = key_of r2 ↔ table_key r1 = table_key r2.
Proof.
  intros H1 H2. unfold key_of, table_key.
  rewrite (well_formed_lookup r1 "schema"), (well_formed_lookup r1 "name"),
    (well_formed_lookup r2 "schema"), (well_formed_lookup r2 "name");
    [|done|set_solver..].
  split; [by intros [= -> ->]|by intros [= -> ->]].
Qed.

Lemma table_of_run_snoc cluster pre last :
  table_of_run cluster (pre ++ [last])
  = {| tm_database := "druid"; tm_cluster := cluster;
       tm_schema := cell last "schema"; tm_name := cell last "name";
       tm_description := EmptyString;
       tm_columns := column_of_row <$> (pre ++ [last]) |}.
Proof. unfold table_of_run. by rewrite last_snoc. Qed.

Lemma run_snoc_homogeneous (pre : list row) last :
  Forall (λ x, table_key x = table_key last) pre →
  ∀ x y, x ∈ pre ++ [last] → y ∈ pre ++ [last] → table_key x = table_key y.
Proof.
  intros Hpre.
  assert (∀ a, a ∈ pre ++ [last] → table_key a = table_key last) as Hall.
  { intros a [Ha| ->%list_elem_of_singleton]%elem_of_app; [|done].
    by eapply Forall_forall in Hpre. }
  intros x y Hx Hy. by rewrite (Hall x), (Hall y).
Qed.

(** On well-formed rows the generator produces the tables of the runs. *)
Lemma entities_from_wf cluster rs :
  ∀ pre last,
    Forall well_formed rs → well_formed last →
    Forall (λ x, table_key x = table_key last) pre →
    entities_from cluster (key_of last) last (column_of_row <$> (pre ++ [last])) rs
    = Return <$> (table_of_run cluster <$> runs ((pre ++ [last]) ++ rs)).
Proof.
  unfold runs.
  induction rs as [|r rs IH]; intros pre last Hrs Hlast Hpre.
  - cbn [entities_from]. rewrite new_table_wf by done.
    rewrite app_nil_r, runs_by_homog_run;
      [|by destruct pre|by apply run_snoc_homogeneous].
    simpl. by rewrite table_of_run_snoc.
  - apply Forall_cons in Hrs as [Hr Hrs].
    cbn [entities_from]. rewrite get_table_key_wf by done.
    destruct (decide (key_of r = key_of last)) as [Heq|Hne].
    + rewrite new_column_wf by done.
      rewrite <-Heq. apply key_of_eq in Heq; [|done..].
      replace ((column_of_row <$> pre ++ [last]) ++ [column_of_row r])
        with (column_of_row <$> (pre ++ [last]) ++ [r]) by by rewrite fmap_app.
      rewrite (IH (pre ++ [last]) r); [|done..|].
      * by rewrite <-(app_assoc _ [r] rs).
      * apply Forall_app. split; [|by repeat constructor].
        eapply Forall_impl; [done|]. intros x Hx. simpl in Hx. congruence.
    + rewrite new_table_wf, new_column_wf by done.
      rewrite runs_by_app, runs_by_homog_run;
        [|by destruct pre|by apply run_snoc_homogeneous|].
      * cbn [app fmap list_fmap]. rewrite table_of_run_snoc. f_equal.
        by apply (IH [] r).
      * rewrite last_snoc. intros x y [= <-] [= <-] Hk.
        apply Hne. by apply key_of_eq.
Qed.

Lemma entities_wf cluster rows :
  Forall well_formed rows →
  entities cluster rows = Return <$> (table_of_run cluster <$> runs rows).
Proof.
  destruct rows as [|r rows]; [done|]. intros [Hr Hrows]%Forall_cons.
  unfold entities. rewrite get_table_key_wf, new_column_wf by done.
  by apply (entities_from_wf cluster rows [] r).
Qed.

Lemma key_field_expected k : k ∈ ["schema"; "name"] → k ∈ expected_fields.
Proof.
  rewrite !elem_of_cons, elem_of_nil. intros [->|[->|[]]]; field_in.
Qed.

Lemma column_field_expected k :
  k ∈ ["col_name"; "col_type"; "col_sort_order"] → k ∈ expected_fields.
Proof.
  rewrite !elem_of_cons, elem_of_nil. intros [->|[->|[->|[]]]]; field_in.
Qed.

(** A row that is not well-formed makes the key function or the column
    constructor raise. *)
Lemma new_column_bad r k :
  ¬ well_formed r → _get_table_key r = Return k →
  ∃ f, new_column (Dict r) = Raise (KeyError f) ∧ r !! f = None
       ∧ f ∈ expected_fields.
Proof.
  intros Hbad Hk.
  destruct (new_column (Dict r)) as [c|e] eqn:Hc.
  - exfalso. apply Hbad. unfold new_column, subscript, getitem in Hc.
    destruct (r !! "col_name") eqn:H1; [|done].
    destruct (r !! "col_type") eqn:H2; [|done].
    destruct (r !! "col_sort_order") eqn:H3; [|done].
    unfold _get_table_key, getitem in Hk.
    destruct (dict_truthy r) eqn:Ht.
    + destruct (r !! "schema") eqn:H4; [|done].
      destruct (r !! "name") eqn:H5; [|done].
      unfold well_formed, expected_fields.
      repeat (constructor; [by eexists|]). constructor.
    + apply bool_decide_eq_false_1 in Ht. apply dec_stable in Ht. subst r.
      by rewrite lookup_empty in H1.
  - apply new_column_raise in Hc as (f & -> & Hf & Hin).
    exists f. split_and!; [done..|]. by apply column_field_expected.
Qed.

Lemma get_table_key_same last bad :
  well_formed last → table_key last = table_key bad →
  _get_table_key bad = Return (key_of last).
Proof.
  intros Hwf [= Hs Hn].
  rewrite (well_formed_lookup last "schema") in Hs by (done || set_solver).
  rewrite (well_formed_lookup last "name") in Hn by (done || set_solver).
  unfold _get_table_key, getitem.
  assert (dict_truthy bad = true) as ->.
  { apply bool_decide_eq_true_2. intros ->. by rewrite lookup_empty in Hs. }
  by rewrite <-Hs, <-Hn.
Qed.

(** The first row that is not well-formed ends the entities with a lookup
    failure; what is produced before are tables of whole runs, and the
    run that the bad row would continue is not among them. *)
Lemma entities_from_bad cluster bad rest good :
  ¬ well_formed bad →
  ∀ pre lrow,
    Forall well_formed good → well_formed lrow →
    Forall (λ x, table_key x = table_key lrow) pre →
    ∃ m k,
      entities_from cluster (key_of lrow) lrow
        (column_of_row <$> (pre ++ [lrow])) (good ++ bad :: rest)
      = (Return <$> take m (table_of_run cluster <$> runs ((pre ++ [lrow]) ++ good)))
        ++ [Raise (KeyError k)]
      ∧ k ∈ expected_fields ∧ bad !! k = None
      ∧ (S m = length (runs ((pre ++ [lrow]) ++ good))
         ∨ (m = length (runs ((pre ++ [lrow]) ++ good))
            ∧ ∀ x, last ((pre ++ [lrow]) ++ good) = Some x →
                   table_key x ≠ table_key bad)).
Proof.
  intros Hbad. unfold runs.
  induction good as [|r good IH]; intros pre lrow Hgood Hlast Hpre.
  - cbn [app entities_from]. rewrite app_nil_r.
    rewrite runs_by_homog_run; [|by destruct pre|by apply run_snoc_homogeneous].
    destruct (_get_table_key bad) as [k|e] eqn:Hk; cycle 1.
    { apply get_table_key_raise in Hk as (f & -> & Hf & Hin).
      exists 0, f. split_and!; [done| |done|by left].
      by apply key_field_expected. }
    destruct (new_column_bad bad k Hbad Hk) as (f & Hc & Hf & Hin).
    destruct (decide (k = key_of lrow)) as [->|Hne].
    + rewrite Hc. exists 0, f. split_and!; [done..|by left].
    + rewrite new_table_wf, Hc by done.
      exists 1, f. split_and!; [|done..|right].
      * simpl. by rewrite table_of_run_snoc.
      * split; [done|]. rewrite last_snoc. intros x [= <-] Hsame.
        apply get_table_key_same in Hsame; [|done]. congruence.
  - apply Forall_cons in Hgood as [Hr Hgood].
    cbn [app entities_from]. rewrite get_table_key_wf by done.
    destruct (decide (key_of r = key_of lrow)) as [Heq|Hne].
    + rewrite new_column_wf by done.
      rewrite <-Heq. apply key_of_eq in Heq; [|done..].
      replace ((column_of_row <$> pre ++ [lrow]) ++ [column_of_row r])
        with (column_of_row <$> (pre ++ [lrow]) ++ [r]) by by rewrite fmap_app.
      destruct (IH (pre ++ [lrow]) r) as (m & k & Hent & Hk & Hnone & Hm); [done..| |].
      { apply Forall_app. split; [|by repeat constructor].
        eapply Forall_impl; [done|]. intros x Hx. simpl in Hx. congruence. }
      rewrite <-(app_assoc _ [r] good) in Hent, Hm.
      by exists m, k.
    + rewrite new_table_wf, new_column_wf by done.
      destruct (IH [] r) as (m & k & Hent & Hk & Hnone & Hm); [done..|].
      rewrite runs_by_app, runs_by_homog_run;
        [|by destruct pre|by apply run_snoc_homogeneous|]; cycle 1.
      { rewrite last_snoc. intros x y [= <-] [= <-] Hsame.
        apply Hne. by apply key_of_eq. }
      exists (S m), k. split_and!; [|done..|].
      * cbn [app fmap list_fmap take]. rewrite table_of_run_snoc. f_equal.
        exact Hent.
      * cbn [app length]. rewrite last_app_cons.
        destruct Hm as [Hm|[Hm Hlst]]; [left; by f_equal|right].
        split; [by f_equal|]. exact Hlst.
Qed.

Lemma entities_bad cluster good bad rest :
  Forall well_formed good → ¬ well_formed bad →
  ∃ m k,
    entities cluster (good ++ bad :: rest)
    = (Return <$> take m (table_of_run cluster <$> runs good))
      ++ [Raise (KeyError k)]
    ∧ k ∈ expected_fields ∧ bad !! k = None
    ∧ (S m = length (runs good)
       ∨ (m = length (runs good)
          ∧ ∀ x, last good = Some x → table_key x ≠ table_key bad)).
Proof.
  intros Hgood Hbad. destruct good as [|r good].
  - cbn [app entities].
    destruct (_get_table_key bad) as [k|e] eqn:Hk; cycle 1.
    { apply get_table_key_raise in Hk as (f & -> & Hf & Hin).
      exists 0, f. split_and!; [done| |done|by right].
      by apply key_field_expected. }
    destruct (new_column_bad bad k Hbad Hk) as (f & Hc & Hf & Hin).
    rewrite Hc. exists 0, f. split_and!; [done..|by right].
  - apply Forall_cons in Hgood as [Hr Hgood].
    cbn [app entities]. rewrite get_table_key_wf, new_column_wf by done.
    by apply (entities_from_bad cluster bad rest good Hbad [] r).
Qed.

End Tables.

Section Statement.

Lemma SQL_STATEMENT_template :
  SQL_STATEMENT = select_from_clause +:+ "{where_clause_suffix}" +:+ order_by_clause.
Proof. vm_compute. reflexivity. Qed.

Lemma format_SQL_STATEMENT w :
  Py.format SQL_STATEMENT [] [("where_clause_suffix", w)]
  = Return (select_from_clause +:+ w +:+ order_by_clause).
Proof. vm_compute. reflexivity. Qed.

Lemma append_nil_r s : s +:+ EmptyString = s.
Proof.
  induction s as [|a s IH]; [done|].
  change (String a s +:+ EmptyString) with (String a (s +:+ EmptyString)).
  by rewrite IH.
Qed.

Lemma format_braces c : Py.format "{}" [c] [] = Return c.
Proof. unfold Py.format. simpl. by rewrite append_nil_r. Qed.

Lemma with_fallback_lookup conf k :
  with_fallback conf DEFAULT_CONFIG !! k
  = match conf !! k with
    | Some v => Some v
    | None => DEFAULT_CONFIG !! k
    end.
Proof.
  unfold with_fallback. rewrite lookup_union.
  destruct (conf !! k), (DEFAULT_CONFIG !! k); done.
Qed.

(** The extractor that [init] builds. *)
Lemma init_with_eq conf source :
  init_with conf source
  = Return (mk_self (default "gold" (conf !! "cluster"))
              (select_from_clause
               +:+ default " " (conf !! "where_clause_suffix")
               +:+ order_by_clause)
              source None).
Proof.
  unfold init_with, get_string. rewrite !with_fallback_lookup.
  unfold CLUSTER_KEY, WHERE_CLAUSE_SUFFIX_KEY.
  destruct (conf !! "cluster") as [c|], (conf !! "where_clause_suffix") as [w|];
    cbn [bind_o default];
    repeat match goal with
           | |- context [DEFAULT_CONFIG !! ?k] =>
             change (DEFAULT_CONFIG !! k) with (Some "gold")
             || change (DEFAULT_CONFIG !! k) with (Some " ")
           end;
    cbn [bind_o]; rewrite format_braces; cbn [bind_o];
    rewrite format_SQL_STATEMENT; done.
Qed.

Lemma init_eq conf results :
  init conf results
  = Return (mk_self (default "gold" (conf !! "cluster"))
              (select_from_clause
               +:+ default " " (conf !! "where_clause_suffix")
               +:+ order_by_clause)
              {| pending := results; calls := 0; broken := None |} None).
Proof. apply init_with_eq. Qed.

End Statement.

Section AnyState.

(** The four ways a [next()] on the raw generator can go. *)
Lemma raw_next_cases h :
  (it_finished (grp h) = true
   ∧ _get_raw_extract_iter_next h = (Raise StopIteration, h))
  ∨ (it_finished (grp h) = false
     ∧ ∃ d p, pending (alch h) = Some d :: p ∧ dict_truthy d = true
       ∧ _get_raw_extract_iter_next h
         = (Return d, {| alch := {| pending := p; calls := S (calls (alch h));
                                    broken := broken (alch h) |};
                         grp := grp h |}))
  ∨ (it_finished (grp h) = false
     ∧ falsy_head (pending (alch h))
     ∧ _get_raw_extract_iter_next h
       = (Raise StopIteration,
          {| alch := {| pending := tail (pending (alch h));
                        calls := S (calls (alch h));
                        broken := broken (alch h) |};
             grp := set_it_finished (grp h) |}))
  ∨ (it_finished (grp h) = false
     ∧ pending (alch h) = []
     ∧ ∃ msg, broken (alch h) = Some msg
       ∧ _get_raw_extract_iter_next h
         = (Raise (SourceError msg),
            {| alch := {| pending := []; calls := S (calls (alch h));
                          broken := broken (alch h) |};
               grp := set_it_finished (grp h) |})).
Proof.
  destruct h as [[p c b] [fin tgt ck cv i]]. destruct fin; [by left|right].
  destruct p as [|[d|] p].
  - destruct b as [msg|].
    + do 2 right. split_and!; [done..|]. by exists msg.
    + right. left. by split_and!.
  - destruct (dict_truthy d) eqn:Hd.
    + left. split; [done|]. exists d, p. split_and!; [done..|].
      unfold _get_raw_extract_iter_next, bind, finishing; simpl. by rewrite Hd.
    + right. left. split_and!; [done..|].
      unfold _get_raw_extract_iter_next, bind, finishing; simpl. by rewrite Hd.
  - right. left. by split_and!.
Qed.

(** Storing a row and its key leaves the source and the raw generator
    alone, and fails with a lookup failure only. *)
Lemma groupby_store_cases v h :
  ∃ g, (groupby_store v h).2 = {| alch := alch h; grp := g |}
       ∧ it_finished g = it_finished (grp h)
       ∧ ((groupby_store v h).1 = Return ()
          ∨ ∃ k, (groupby_store v h).1 = Raise (KeyError k)).
Proof.
  unfold groupby_store, bind, lift, modify_grp, bind; simpl.
  destruct (_get_table_key v) as [k|e] eqn:Hk; simpl.
  - eexists. split_and!; [done..|by left].
  - apply get_table_key_raise in Hk as (k & -> & _).
    eexists. split_and!; [done..|]. right. by exists k.
Qed.

Lemma subscript_raise o k e :
  subscript o k = Raise e → e = TypeError ∨ e = KeyError k.
Proof.
  destruct o as [|d]; simpl; [intros [= <-]; by left|].
  intros [-> _]%getitem_raise. by right.
Qed.

Lemma new_column_not_fuel o : new_column o ≠ Raise OutOfFuel.
Proof.
  unfold new_column.
  destruct (subscript o "col_name") eqn:H1; simpl;
    [|apply subscript_raise in H1 as [->| ->]; done].
  destruct (subscript o "col_type") eqn:H2; simpl;
    [|apply subscript_raise in H2 as [->| ->]; done].
  destruct (subscript o "col_sort_order") eqn:H3; simpl;
    [|apply subscript_raise in H3 as [->| ->]; done].
  done.
Qed.

Lemma new_table_not_fuel cluster lr cols :
  new_table cluster lr cols ≠ Raise OutOfFuel.
Proof.
  unfold new_table. destruct lr as [o|]; [|done].
  destruct (subscript o "schema") eqn:H1; simpl;
    [|apply subscript_raise in H1 as [->| ->]; done].
  destruct (subscript o "name") eqn:H2; simpl;
    [|apply subscript_raise in H2 as [->| ->]; done].
  done.
Qed.

(** The budget of the loop of [__next__] is never used up. *)
Lemma groupby_skip_total fuel :
  ∀ h, mu h < fuel → (groupby_skip fuel h).1 ≠ Raise OutOfFuel.
Proof.
  induction fuel as [|fuel IH]; intros h Hmu; [lia|].
  cbn [groupby_skip]. unfold bind at 1. cbn [get_grp].
  destruct (bool_decide _); [|done].
  unfold bind at 1.
  destruct (raw_next_cases h)
    as [[_ ->]|[(Hfin & d & p & Hp & _ & ->)|[(_ & _ & ->)|(_ & _ & msg & _ & ->)]]];
    [done| |done..].
  unfold bind at 1.
  destruct (groupby_store_cases d
              {| alch := {| pending := p; calls := S (calls (alch h));
                         broken := broken (alch h) |};
                 grp := grp h |}) as (g & Hh & Hg & Hres).
  destruct (groupby_store d _) as [res h']. simpl in Hh, Hres. subst h'.
  destruct Hres as [->|[k ->]]; [|done].
  apply IH. unfold mu in *. simpl in *. rewrite Hg, Hfin. rewrite Hfin, Hp in Hmu.
  simpl in Hmu. lia.
Qed.

(** The budget of the inner loop is never used up. *)
Lemma for_row_in_group_total fuel :
  ∀ gr cols lr h,
    mu h + (if grouper_started gr then 0 else 1) ≤ fuel →
    (if grouper_started gr then 1 else 2) ≤ fuel →
    (for_row_in_group fuel gr cols lr h).1 ≠ Raise OutOfFuel.
Proof.
  induction fuel as [|fuel IH]; intros gr cols lr h Hmu Hmin;
    [destruct (grouper_started gr); lia|].
  cbn [for_row_in_group]. unfold grouper_next.
  destruct (grouper_started gr) eqn:Hst.
  - unfold bind at 1.
    destruct (raw_next_cases h)
      as [[_ ->]|[(Hfin & d & p & Hp & _ & ->)
                 |[(_ & _ & ->)|(_ & _ & msg & _ & ->)]]];
      [done| |done..].
    unfold bind at 1.
    destruct (groupby_store_cases d
                {| alch := {| pending := p; calls := S (calls (alch h));
                         broken := broken (alch h) |};
                   grp := grp h |}) as (g & Hh & Hg & Hres).
    destruct (groupby_store d _) as [res h']. simpl in Hh, Hres. subst h'.
    destruct Hres as [->|[k ->]]; [|done].
    unfold grouper_test, bind, get_grp. cbn [grp].
    destruct (_ && _); [|done]. unfold ret.
    unfold lift. destruct (new_column _) as [c|e] eqn:Hc;
      [|simpl; intros [= ->]; by apply new_column_not_fuel in Hc].
    unfold mu in Hmu. rewrite Hfin, Hp in Hmu. simpl in Hmu.
    simpl in Hg. rewrite Hfin in Hg.
    apply IH; unfold mu; simpl; rewrite ?Hg; lia.
  - unfold grouper_test, bind, get_grp.
    destruct (_ && _); [|done]. unfold ret, lift.
    destruct (new_column _) as [c|e] eqn:Hc;
      [|simpl; intros [= ->]; by apply new_column_not_fuel in Hc].
    apply IH; simpl; lia.
Qed.

Lemma groupby_next_total h : (groupby_next h).1 ≠ Raise OutOfFuel.
Proof.
  unfold groupby_next, bind, get_grp, put_grp, loop_budget. cbn [alch grp].
  pose proof (groupby_skip_total (2 + length (pending (alch h)))
                {| alch := alch h; grp := set_gid (S (gid (grp h))) (grp h) |}) as Hskip.
  destruct (groupby_skip _ _) as [[[]|e] h1]; [done|].
  simpl in *. intros [= ->]. apply Hskip; [|done].
  unfold mu; simpl. destruct (it_finished (grp h)); lia.
Qed.

Section Preserved.
Context (I : SQLAlchemyExtractor → bool → Prop).
Context (Hraw : preserves I _get_raw_extract_iter_next).

Lemma preserves_bind {A B} (m : M A) (k : A → M B) :
  preserves I m → (∀ a, preserves I (k a)) → preserves I (bind m k).
Proof.
  intros Hm Hk h Hh. unfold bind. specialize (Hm h Hh).
  destruct (m h) as [[a|e] h1]; [by apply Hk|done].
Qed.

Lemma preserves_pure {A} (m : M A) :
  (∀ h, (m h).2 = h) → preserves I m.
Proof. intros Hm h Hh. by rewrite Hm. Qed.

Lemma preserves_modify f :
  (∀ g, it_finished (f g) = it_finished g) → preserves I (modify_grp f).
Proof. intros Hf h Hh. simpl. by rewrite Hf. Qed.

Lemma preserves_store v : preserves I (groupby_store v).
Proof.
  unfold groupby_store. apply preserves_bind; [by apply preserves_modify|].
  intros _. apply preserves_bind; [by apply preserves_pure|].
  intros k. by apply preserves_modify.
Qed.

Lemma preserves_skip fuel : preserves I (groupby_skip fuel).
Proof.
  induction fuel as [|fuel IH]; [by apply preserves_pure|].
  cbn [groupby_skip]. apply preserves_bind; [by apply preserves_pure|].
  intros g. destruct (bool_decide _); [|by apply preserves_pure].
  apply preserves_bind; [done|]. intros v.
  apply preserves_bind; [apply preserves_store|done].
Qed.

Lemma preserves_groupby_next : preserves I groupby_next.
Proof.
  unfold groupby_next.
  intros h Hh. unfold bind, get_grp, put_grp, loop_budget. cbn [alch grp].
  pose proof (preserves_skip (2 + length (pending (alch h)))
                {| alch := alch h; grp := set_gid (S (gid (grp h))) (grp h) |} Hh)
    as Hskip.
  by destruct (groupby_skip _ _) as [[[]|e] h1].
Qed.

Lemma preserves_grouper_next gr : preserves I (grouper_next gr).
Proof.
  assert (preserves I (grouper_test gr)) as Htest.
  { apply preserves_pure. intros h. unfold grouper_test, bind, get_grp.
    by destruct (_ && _). }
  unfold grouper_next. destruct (grouper_started gr); [|done].
  apply preserves_bind; [done|]. intros v.
  apply preserves_bind; [apply preserves_store|done].
Qed.

Lemma preserves_for fuel :
  ∀ gr cols lr, preserves I (for_row_in_group fuel gr cols lr).
Proof.
  induction fuel as [|fuel IH]; intros gr cols lr; [by apply preserves_pure|].
  intros h Hh. cbn [for_row_in_group].
  pose proof (preserves_grouper_next gr h Hh) as Hnext.
  destruct (grouper_next gr h) as [[[row gr']|e] h1]; simpl in Hnext.
  - unfold bind, lift. destruct (new_column row) as [c|e]; [by apply IH|done].
  - by destruct e.
Qed.

Lemma preserves_outer_pass cluster lr : preserves I (outer_pass cluster lr).
Proof.
  unfold outer_pass. apply preserves_bind; [apply preserves_groupby_next|].
  intros [key group]. apply preserves_bind; [by apply preserves_pure|].
  intros fuel. apply preserves_bind; [apply preserves_for|].
  intros [cols lr']. apply preserves_bind; [by apply preserves_pure|].
  intros t. by apply preserves_pure.
Qed.

End Preserved.

(** No step changes what a broken source raises. *)
Lemma raw_next_broken b :
  preserves (λ a _, broken a = b) _get_raw_extract_iter_next.
Proof.
  intros h Hh.
  by destruct (raw_next_cases h)
    as [[_ ->]|[(_ & d & p & _ & _ & ->)
               |[(_ & _ & ->)|(_ & _ & msg & _ & ->)]]].
Qed.

Lemma outer_pass_broken cluster lr h :
  broken (alch (outer_pass cluster lr h).2) = broken (alch h).
Proof.
  by apply (preserves_outer_pass _ (raw_next_broken (broken (alch h))) cluster lr h).
Qed.

(** The columns that the inner loop adds have an empty description. *)
Lemma new_column_description o c :
  new_column o = Return c → col_description c = EmptyString.
Proof.
  unfold new_column.
  destruct (subscript o "col_name"); [|done].
  destruct (subscript o "col_type"); [|done].
  destruct (subscript o "col_sort_order"); [|done].
  simpl. by intros [= <-].
Qed.

Lemma for_row_in_group_description fuel :
  ∀ gr cols lr h cols' lr' h',
    for_row_in_group fuel gr cols lr h = (Return (cols', lr'), h') →
    Forall (λ c, col_description c = EmptyString) cols →
    Forall (λ c, col_description c = EmptyString) cols'.
Proof.
  induction fuel as [|fuel IH]; intros gr cols lr h cols' lr' h'; [done|].
  cbn [for_row_in_group].
  destruct (grouper_next gr h) as [[[row gr']|e] h1].
  - unfold bind, lift. destruct (new_column row) as [c|e] eqn:Hc; [|done].
    intros Hloop Hcols. eapply IH; [done|].
    apply Forall_app. split; [done|].
    repeat constructor. by eapply new_column_description.
  - destruct e; try done. by intros [= <- <- <-].
Qed.

Lemma new_table_fields cluster lr cols t :
  new_table cluster lr cols = Return t →
  tm_database t = "druid" ∧ tm_cluster t = cluster
  ∧ tm_description t = EmptyString ∧ tm_columns t = cols.
Proof.
  unfold new_table. destruct lr as [o|]; [|done].
  destruct (subscript o "schema"); [|done].
  destruct (subscript o "name"); [|done].
  simpl. by intros [= <-].
Qed.

(** What is known of a table that a pass of the generator yields. *)
Lemma outer_pass_fields cluster lr h t lr' h' :
  outer_pass cluster lr h = (Return (t, lr'), h') →
  tm_database t = "druid" ∧ tm_cluster t = cluster
  ∧ tm_description t = EmptyString
  ∧ Forall (λ c, col_description c = EmptyString) (tm_columns t).
Proof.
  unfold outer_pass. unfold bind at 1.
  destruct (groupby_next h) as [[[key group]|e] h1]; [|done].
  unfold bind at 1, loop_budget at 1. cbn beta iota. unfold bind at 1.
  destruct (for_row_in_group _ _ _ _ _) as [[[cols lr1]|e] h2] eqn:Hloop; [|done].
  unfold bind, lift, ret.
  destruct (new_table cluster lr1 cols) as [t'|e] eqn:Ht; [|done].
  intros [= <- <- <-].
  apply new_table_fields in Ht as (? & ? & ? & ->).
  split_and!; [done..|].
  by eapply for_row_in_group_description.
Qed.

Lemma outer_pass_total cluster lr h :
  (outer_pass cluster lr h).1 ≠ Raise OutOfFuel.
Proof.
  unfold outer_pass. unfold bind at 1.
  pose proof (groupby_next_total h) as Hnext.
  destruct (groupby_next h) as [[[key group]|e] h1]; [|simpl in *; congruence].
  unfold bind at 1, loop_budget at 1. cbn beta iota. unfold bind at 1.
  pose proof (for_row_in_group_total (2 + length (pending (alch h1))) group [] lr h1)
    as Hloop.
  destruct (for_row_in_group _ _ _ _ _) as [[[cols lr1]|e] h2].
  - unfold bind, lift, ret.
    pose proof (new_table_not_fuel cluster lr1 cols).
    destruct (new_table _ _ _); simpl; congruence.
  - simpl in *. intros [= ->]. apply Hloop; [| |done].
    + unfold mu. destruct (it_finished _), (grouper_started _); lia.
    + destruct (grouper_started _); lia.
Qed.

(** No [next()] on the generator runs out of its iteration budget. *)
Lemma _get_extract_iter_next_total cluster gen a :
  (_get_extract_iter_next cluster gen a).1.1 ≠ Raise OutOfFuel.
Proof.
  unfold _get_extract_iter_next, resume. destruct gen as [|g lr|].
  - pose proof (outer_pass_total cluster None {| alch := a; grp := groupby_new |}).
    destruct (outer_pass _ _ _) as [[[t lr']|e] h']; simpl in *; congruence.
  - pose proof (outer_pass_total cluster lr {| alch := a; grp := g |}).
    destruct (outer_pass _ _ _) as [[[t lr']|e] h']; simpl in *; congruence.
  - done.
Qed.

End AnyState.

Section Sorted.

Lemma key_le_trans a b c : key_le a b → key_le b c → key_le a c.
Proof.
  destruct a as [[s1 t1] n1], b as [[s2 t2] n2], c as [[s3 t3] n3].
  unfold key_le; simpl.
  intros [[H12 N12]|[-> H12]] [[H23 N23]|[-> H23]].
  - left. split; [by etrans|]. intros ->. apply N12. by apply (anti_symm String.le).
  - left. by split.
  - left. by split.
  - right. split; [done|].
    destruct H12 as [[T12 M12]|[-> Z12]], H23 as [[T23 M23]|[-> Z23]].
    + left. split; [by etrans|]. intros ->. apply M12. by apply (anti_symm String.le).
    + left. by split.
    + left. by split.
    + right. split; [done|lia].
Qed.

Global Instance row_le_trans : Transitive row_le.
Proof.
  intros r1 r2 r3. unfold row_le.
  destruct (sort_key r1), (sort_key r2), (sort_key r3); try done.
  apply key_le_trans.
Qed.

Lemma sort_key_table_key r s t n :
  sort_key r = Some (s, t, n) → table_key r = (Some (VStr s), Some (VStr t)).
Proof.
  unfold sort_key, table_key.
  destruct (r !! "schema") as [[]|]; try done.
  destruct (r !! "name") as [[]|]; try done.
  destruct (r !! "col_sort_order") as [[]|]; try done.
  by intros [= -> -> ->].
Qed.

(** Between two rows of one table there are only rows of that table. *)
Lemma row_le_sandwich a b c :
  row_le a b → row_le b c → table_key a = table_key c →
  table_key a = table_key b.
Proof.
  unfold row_le.
  destruct (sort_key a) as [[[s1 t1] n1]|] eqn:Ha; [|done].
  destruct (sort_key b) as [[[s2 t2] n2]|] eqn:Hb; [|done].
  destruct (sort_key c) as [[[s3 t3] n3]|] eqn:Hc; [|done].
  apply sort_key_table_key in Ha, Hb, Hc. rewrite Ha, Hb, Hc.
  unfold key_le; simpl. intros H12 H23 [= <- <-].
  assert (s1 = s2) as <-.
  { destruct H12 as [[H12 _]|[-> _]]; [|done].
    destruct H23 as [[H23 _]|[-> _]]; [|done].
    by apply (anti_symm String.le). }
  destruct H12 as [[_ []]|[_ H12]]; [done|].
  destruct H23 as [[_ []]|[_ H23]]; [done|].
  assert (t1 = t2) as <-; [|done].
  destruct H12 as [[H12 _]|[-> _]]; [|done].
  destruct H23 as [[H23 _]|[-> _]]; [|done].
  by apply (anti_symm String.le).
Qed.

Lemma run_id_elem run rows k :
  run ∈ runs rows → run_id run = Some k → ∃ x, x ∈ rows ∧ table_key x = k.
Proof.
  intros Hrun Hk. destruct run as [|x run]; [done|].
  injection Hk as <-. exists x. split; [|done].
  eapply runs_by_elem; [done|left].
Qed.

(** In sorted rows no two runs belong to one table. *)
Lemma sorted_runs_NoDup rows :
  sorted_rows rows → NoDup (run_id <$> runs rows).
Proof.
  intros Hsorted. apply (Sorted_StronglySorted _) in Hsorted.
  induction Hsorted as [|r rs Hrs IH Hle]; [constructor|].
  destruct rs as [|r' rs]; [apply NoDup_singleton|].
  unfold runs in *.
  destruct (runs_by_cons_head table_key r' rs) as (run & rest & Heq).
  cbn [runs_by] in *. rewrite Heq in *.
  destruct (decide (table_key r = table_key r')) as [Hk|Hk].
  - cbn [fmap list_fmap run_id head option_fmap option_map] in *.
    by rewrite Hk.
  - rewrite fmap_cons. constructor; [|done].
    intros ([|x run'] & Hid & Hin)%list_elem_of_fmap; [done|].
    apply (inj Some) in Hid.
    assert (x ∈ r' :: rs) as Hx.
    { apply (runs_by_elem table_key x (x :: run')); [|left].
      cbn [runs_by]. by rewrite Heq. }
    apply Hk. apply Forall_cons in Hle as [Hrr' Hle].
    apply elem_of_cons in Hx as [->|Hx]; [done|].
    apply StronglySorted_inv in Hrs as [_ Hr'].
    eapply row_le_sandwich; [done| |done].
    by eapply Forall_forall in Hr'.
Qed.

End Sorted.

Section Extract.

Lemma next_raise_finished cluster gen a e gen' a' :
  _get_extract_iter_next cluster gen a = (Raise e, gen', a') → gen' = GenFinished.
Proof.
  unfold _get_extract_iter_next, resume. destruct gen as [|g lr|].
  - destruct (outer_pass _ _ _) as [[[t lr']|e'] h']; congruence.
  - destruct (outer_pass _ _ _) as [[[t lr']|e'] h']; congruence.
  - congruence.
Qed.

Lemma next_return_fields cluster gen a t gen' a' :
  _get_extract_iter_next cluster gen a = (Return t, gen', a') →
  tm_database t = "druid" ∧ tm_cluster t = cluster
  ∧ tm_description t = EmptyString
  ∧ Forall (λ c, col_description c = EmptyString) (tm_columns t).
Proof.
  unfold _get_extract_iter_next, resume. destruct gen as [|g lr|]; [| |done].
  - destruct (outer_pass _ _ _) as [[[t' lr']|e'] h'] eqn:Hpass; [|done].
    intros [= <- _ _]. by eapply outer_pass_fields.
  - destruct (outer_pass _ _ _) as [[[t' lr']|e'] h'] eqn:Hpass; [|done].
    intros [= <- _ _]. by eapply outer_pass_fields.
Qed.

(** What one call of [extract()] does to the extractor, in any state. *)
Lemma extract_inv self :
  ∃ a it,
    (extract self).2 = mk_self (_cluster self) (sql_stmt self) a (Some it)
    ∧ match (extract self).1 with
      | Return (Some t) =>
        tm_database t = "druid" ∧ tm_cluster t = _cluster self
        ∧ tm_description t = EmptyString
        ∧ Forall (λ c, col_description c = EmptyString) (tm_columns t)
      | Return None => it = GenFinished
      | Raise e => it = GenFinished ∧ e ≠ OutOfFuel ∧ e ≠ StopIteration
      end.
Proof.
  unfold extract.
  pose proof (_get_extract_iter_next_total (_cluster self)
    (match _extract_iter self with None => _get_extract_iter | Some gen => gen end)
    (_alchemy_extractor self)) as Htotal.
  destruct (_get_extract_iter_next _ _ _) as [[[t|e] it] a] eqn:Hnext.
  - exists a, it. split; [done|]. by eapply next_return_fields.
  - apply next_raise_finished in Hnext as ->. exists a, GenFinished.
    simpl in Htotal. by destruct e.
Qed.

Lemma extract_n_emitted_ok n : ∀ self, Forall emitted_ok (extract_n n self).1.
Proof.
  induction n as [|n IH]; intros self; [constructor|].
  cbn [extract_n]. destruct (extract_inv self) as (a & it & _ & Hres).
  destruct (extract self) as [r self']. specialize (IH self').
  destruct (extract_n n self') as [rs self'']. simpl in *.
  constructor; [|done].
  destruct r as [[t|]|e]; [|done..]. unfold emitted_ok. tauto.
Qed.

Lemma extract_n_stamped n :
  ∀ self, Forall (stamped (_cluster self)) (extract_n n self).1.
Proof.
  induction n as [|n IH]; intros self; [constructor|].
  cbn [extract_n]. destruct (extract_inv self) as (a & it & Hself & Hres).
  destruct (extract self) as [r self']. specialize (IH self').
  destruct (extract_n n self') as [rs self'']. simpl in *. subst self'.
  constructor; [|done].
  destruct r as [[t|]|e]; [|done..]. unfold stamped. tauto.
Qed.

(** The facts about the runs of well-formed rows. *)
Lemma run_snoc rows run :
  Forall well_formed rows → run ∈ runs rows →
  ∃ pre lst, run = pre ++ [lst] ∧ well_formed lst
             ∧ Forall well_formed run
             ∧ Forall (λ x, table_key x = table_key lst) run.
Proof.
  intros Hwf Hrun.
  assert (Forall well_formed run) as Hrunwf.
  { apply Forall_forall. intros x Hx.
    eapply Forall_forall in Hwf; [done|]. by eapply runs_by_elem. }
  pose proof (runs_by_nonempty table_key rows) as Hne.
  pose proof (runs_by_homogeneous table_key rows) as Hhom.
  eapply Forall_forall in Hne, Hhom; [|done..].
  destruct (decide (run = [])) as [|_]; [done|].
  destruct run as [|x run _] using rev_ind; [done|].
  exists run, x. apply Forall_app in Hrunwf as Hw. destruct Hw as [_ [Hx _]%Forall_cons].
  split_and!; [done..|].
  apply Forall_forall. intros y Hy. apply Hhom; [done|].
  apply elem_of_app. right. left.
Qed.

Lemma table_of_run_matches cluster rows run :
  Forall well_formed rows → run ∈ runs rows →
  table_matches run (table_of_run cluster run)
  ∧ Forall2 column_matches run (tm_columns (table_of_run cluster run))
  ∧ run_id run
    = Some (Some (tm_schema (table_of_run cluster run)),
            Some (tm_name (table_of_run cluster run))).
Proof.
  intros Hwf Hrun.
  destruct (run_snoc rows run Hwf Hrun) as (pre & lst & -> & Hlst & Hrunwf & Hkey).
  rewrite table_of_run_snoc. unfold table_matches; cbn [tm_schema tm_name tm_columns].
  assert (table_key lst = (Some (cell lst "schema"), Some (cell lst "name"))) as Hk.
  { unfold table_key.
    rewrite (well_formed_lookup lst "schema"), (well_formed_lookup lst "name");
      [done|done|field_in|done|field_in]. }
  split_and!.
  - eapply Forall_impl; [exact Hkey|]. intros x Hx. simpl in Hx.
    rewrite Hk in Hx. by injection Hx.
  - apply Forall2_fmap_r, Forall_Forall2_diag.
    eapply Forall_impl; [exact Hrunwf|]. intros x Hx. unfold column_matches; simpl.
    rewrite !(well_formed_lookup x); [done|done|field_in|done|field_in|done|field_in].
  - unfold run_id. destruct pre as [|x pre]; cbn [app head].
    + change (table_key <$> Some lst) with (Some (table_key lst)). by rewrite Hk.
    + change (table_key <$> Some x) with (Some (table_key x)).
      apply Forall_cons in Hkey as [Hx _]. by rewrite Hx, Hk.
Qed.

End Extract.

Section Falsy.
Context (n : nat) (f : option row) (post : list (option row)).
Context (Hf : truthy f = false).

Lemma source_kept_raw_next :
  preserves (source_kept n f post) _get_raw_extract_iter_next.
Proof.
  intros h Hh.
  destruct (raw_next_cases h)
    as [[_ ->]|[(Hfin & d & p & Hp & Hd & ->)
               |[(Hfin & Hhead & ->)|(Hfin & Hp & msg & _ & ->)]]]; [done|..]; cycle 2.
  { rewrite Hfin in Hh. destruct Hh as [(_ & l & Hl & _)|[? _]]; [|done].
    rewrite Hp in Hl. by destruct l. }
  - rewrite Hfin in *. cbn [alch grp fst snd].
    destruct Hh as [(_ & l & Hl & Hall & Hcalls)|[? _]]; [|done].
    left. split; [done|]. rewrite Hp in Hl.
    destruct l as [|x l]; simpl in Hl.
    + injection Hl as <- _. simpl in Hf. congruence.
    + injection Hl as -> ->. apply Forall_cons in Hall as [_ Hall].
      exists l. split_and!; [done..|]. simpl in *. lia.
  - rewrite Hfin in *. cbn [alch grp fst snd it_finished set_it_finished pending calls].
    destruct Hh as [(_ & l & Hl & Hall & Hcalls)|[? _]]; [|done].
    right. rewrite Hl in *.
    destruct l as [|x l]; simpl in *.
    + split_and!; [done..|lia].
    + apply Forall_cons in Hall as [Hx _]. congruence.
Qed.

Lemma source_kept_suffix a fin :
  source_kept n f post a fin → post `suffix_of` pending a ∧ calls a ≤ S n.
Proof.
  intros [(_ & l & -> & _ & Hcalls)|(_ & -> & ->)].
  - split; [|lia]. exists ((Some <$> l) ++ [f]). by rewrite <-app_assoc.
  - done.
Qed.

Lemma next_kept cluster gen a :
  generator_kept n f post gen a →
  generator_kept n f post (_get_extract_iter_next cluster gen a).1.2
    (_get_extract_iter_next cluster gen a).2.
Proof.
  assert (∀ g lr,
    source_kept n f post a (it_finished g) →
    generator_kept n f post (resume cluster g lr a).1.2 (resume cluster g lr a).2)
    as Hresume.
  { intros g lr Ha. unfold resume.
    pose proof (preserves_outer_pass _ source_kept_raw_next cluster lr
                  {| alch := a; grp := g |} Ha) as Hpass.
    destruct (outer_pass _ _ _) as [[[t lr']|e] h']; simpl in *; eauto. }
  destruct gen as [|g lr|]; simpl; auto.
Qed.

Lemma extract_kept self :
  extractor_kept n f post self → extractor_kept n f post (extract self).2.
Proof.
  unfold extractor_kept, extract. intros Hself.
  apply (next_kept (_cluster self)) in Hself.
  destruct (_get_extract_iter_next _ _ _) as [[r gen'] a'].
  destruct r as [t|[]]; exact Hself.
Qed.

Lemma extract_n_kept k :
  ∀ self, extractor_kept n f post self → extractor_kept n f post (extract_n k self).2.
Proof.
  induction k as [|k IH]; intros self Hself; [done|].
  cbn [extract_n]. apply extract_kept in Hself.
  destruct (extract self) as [r self']. specialize (IH self' Hself).
  by destruct (extract_n k self') as [rs self''].
Qed.

Lemma extractor_kept_suffix self :
  extractor_kept n f post self →
  post `suffix_of` pending (_alchemy_extractor self)
  ∧ calls (_alchemy_extractor self) ≤ S n.
Proof.
  unfold extractor_kept, generator_kept, _get_extract_iter.
  destruct (_extract_iter self) as [[|g lr|]|];
    [| |intros [fin H]|]; eauto using source_kept_suffix.
Qed.

End Falsy.

Section Raw.

Lemma raw_next_n_finished k p c tgt ck cv i :
  raw_next_n k (mk_heap p c true tgt ck cv i)
  = (replicate k (Raise StopIteration), mk_heap p c true tgt ck cv i).
Proof.
  induction k as [|k IH]; [done|]. cbn [raw_next_n].
  by rewrite raw_next_finished, IH.
Qed.

(** The raw generator yields the rows before the first falsy result, takes
    that result, and from then on neither yields nor calls the source. *)
Lemma raw_next_n_trace pre f post k :
  ∀ c tgt ck cv i,
    Forall (λ d, dict_truthy d = true) pre → truthy f = false →
    raw_next_n (length pre + S k)
      (mk_heap ((Some <$> pre) ++ f :: post) c false tgt ck cv i)
    = ((Return <$> pre) ++ replicate (S k) (Raise StopIteration),
       mk_heap post (c + length pre + 1) true tgt ck cv i).
Proof.
  induction pre as [|d pre IH]; intros c tgt ck cv i Hpre Hf.
  - cbn [length plus fmap list_fmap app raw_next_n].
    rewrite raw_next_falsy, raw_next_n_finished by done.
    do 2 f_equal. lia.
  - apply Forall_cons in Hpre as [Hd Hpre].
    cbn [length plus fmap list_fmap app raw_next_n].
    rewrite raw_next_yield by done.
    change (list_fmap _ _ ?g ?l) with (g <$> l).
    rewrite IH by done. do 2 f_equal. lia.
Qed.

End Raw.

Example scenario_well_formed : Forall well_formed scenario.
Proof. by_computation. Qed.
Example scenario_sorted : sorted_rows scenario.
Proof. by_computation. Qed.
Example interleaved_not_sorted : ¬ sorted_rows interleaved.
Proof. apply (bool_decide_unpack _). vm_compute. exact I. Qed.
Example nameless_bad : ¬ well_formed nameless.
Proof. by_computation. Qed.

(** ** Runs of the model on the example inputs *)

Section Examples.

(** The scenario of the spec: [t1] with [a] and [b] in that order, then [t2]
    with [c], then the sentinel. *)
Example scenario_run :
  first_results ∅ (Some <$> scenario) 4
  = [ Return (Some (table "gold" "s1" "t1"
                      [column "a" "STRING" 1; column "b" "LONG" 2]));
      Return (Some (table "gold" "s1" "t2" [column "c" "STRING" 1]));
      Return None; Return None ].
Proof. vm_compute. reflexivity. Qed.

(** Rows of [t1] around a row of [t2]: three tables. *)
Example interleaved_run :
  first_results {[ "cluster" := "silver" ]} (Some <$> interleaved) 4
  = [ Return (Some (table "silver" "s1" "t1" [column "a" "STRING" 1]));
      Return (Some (table "silver" "s1" "t2" [column "c" "STRING" 1]));
      Return (Some (table "silver" "s1" "t1" [column "b" "LONG" 2]));
      Return None ].
Proof. vm_compute. reflexivity. Qed.

(** A row of [t2] without [col_name] after the scenario: [t1] is returned,
    the lookup fails while [t2] is collected, and [t2] is not returned. *)
Example nameless_run :
  first_results ∅ (Some <$> scenario ++ [nameless]) 4
  = [ Return (Some (table "gold" "s1" "t1"
                      [column "a" "STRING" 1; column "b" "LONG" 2]));
      Raise (KeyError "col_name"); Return None; Return None ].
Proof. vm_compute. reflexivity. Qed.

(** An empty dict among the results ends the stream: the row after it is
    never taken. *)
Example empty_dict_run :
  first_results ∅
    [ Some (row_of "s1" "t1" "a" "STRING" 1); Some ∅;
      Some (row_of "s1" "t2" "c" "STRING" 1) ] 3
  = [ Return (Some (table "gold" "s1" "t1" [column "a" "STRING" 1]));
      Return None; Return None ].
Proof. vm_compute. reflexivity. Qed.

End Examples.

(** ** The properties of the specification *)

Section Claims.

Lemma results_of_take n os :
  results_of n os = take n ((to_result <$> os) ++ replicate n (Return None)).
Proof.
  revert os. induction n as [|n IH]; intros os; [done|].
  destruct os as [|o os]; cbn [results_of].
  - rewrite results_of_nil. simpl. by rewrite take_replicate, Nat.min_id.
  - rewrite IH. cbn [fmap list_fmap app take]. f_equal.
    change (list_fmap _ _ ?g ?l) with (g <$> l).
    destruct (decide (n ≤ length (to_result <$> os))) as [Hle|Hgt].
    + by rewrite !take_app_le.
    + rewrite !take_app_ge by lia. f_equal.
      rewrite !take_replicate. f_equal. lia.
Qed.

(** The trace of an initialised extractor over well-formed rows. *)
Lemma init_extract_n_wf conf results :
  Forall well_formed (raw_rows results) →
  ∃ e, init conf results = Return e
       ∧ ∀ n, (extract_n n e).1
              = results_of n (Return <$> (table_of_run (_cluster e)
                                            <$> runs (raw_rows results))).
Proof.
  intros Hwf. rewrite init_eq. eexists. split; [done|]. intros n.
  rewrite extract_n_entities. by rewrite entities_wf.
Qed.

Lemma Forall2_runs_tables (P : list row → TableMetadata → Prop) cluster rows :
  (∀ run, run ∈ runs rows → P run (table_of_run cluster run)) →
  Forall2 P (runs rows) (table_of_run cluster <$> runs rows).
Proof.
  intros HP. apply Forall2_fmap_r, Forall_Forall2_diag, Forall_forall. auto.
Qed.

(** C1. For rows sorted by (schema, table name, ordinal position), the
    calls of [extract()] return one table per maximal contiguous run of
    rows with one Table Key, in the order of the runs, each carrying the
    schema and name of the rows of its run; so there are as many tables
    as runs, and, the rows being sorted, no two of them are the same
    table. *)
Theorem one_table_per_run conf results :
  Forall well_formed (raw_rows results) →
  sorted_rows (raw_rows results) →
  ∃ e ts,
    init conf results = Return e
    ∧ (∀ n, (extract_n n e).1 = results_of n (Return <$> ts))
    ∧ length ts = length (runs (raw_rows results))
    ∧ Forall2 table_matches (runs (raw_rows results)) ts
    ∧ NoDup ((λ t, (tm_schema t, tm_name t)) <$> ts).
Proof.
  intros Hwf Hsorted.
  destruct (init_extract_n_wf conf results Hwf) as (e & Hinit & Htrace).
  exists e, (table_of_run (_cluster e) <$> runs (raw_rows results)).
  split_and!; [done|done|by rewrite length_fmap| |].
  - apply Forall2_runs_tables. intros run Hrun.
    by apply (table_of_run_matches _ (raw_rows results)).
  - apply (NoDup_fmap_1 (λ p, Some (Some p.1, Some p.2))).
    rewrite <-!list_fmap_compose.
    erewrite list_fmap_ext; [by apply sorted_runs_NoDup|].
    intros i run Hrun. simpl.
    apply list_elem_of_lookup_2 in Hrun.
    by destruct (table_of_run_matches (_cluster e) _ run Hwf Hrun) as (_ & _ & ->).
Qed.

Lemma one_table_per_run_witness :
  Forall well_formed (raw_rows (Some <$> scenario))
  ∧ sorted_rows (raw_rows (Some <$> scenario))
  ∧ ∃ e ts,
      init ∅ (Some <$> scenario) = Return e
      ∧ (∀ n, (extract_n n e).1 = results_of n (Return <$> ts))
      ∧ length ts = length (runs (raw_rows (Some <$> scenario)))
      ∧ Forall2 table_matches (runs (raw_rows (Some <$> scenario))) ts
      ∧ NoDup ((λ t, (tm_schema t, tm_name t)) <$> ts).
Proof.
  split; [by_computation|]. split; [by_computation|].
  apply (one_table_per_run ∅ (Some <$> scenario)); by_computation.
Defined.

(** C2. The columns of every table that is returned are those of the rows
    of its run: one column per row, in the order of the rows, with the
    row's [col_name], [col_type] and [col_sort_order]; and the runs put
    end to end are the input. *)
Theorem columns_follow_rows conf results :
  Forall well_formed (raw_rows results) →
  ∃ e ts,
    init conf results = Return e
    ∧ (∀ n, (extract_n n e).1 = results_of n (Return <$> ts))
    ∧ Forall2 (λ run t, Forall2 column_matches run (tm_columns t))
        (runs (raw_rows results)) ts
    ∧ concat (runs (raw_rows results)) = raw_rows results.
Proof.
  intros Hwf.
  destruct (init_extract_n_wf conf results Hwf) as (e & Hinit & Htrace).
  exists e, (table_of_run (_cluster e) <$> runs (raw_rows results)).
  split_and!; [done|done| |apply runs_by_concat].
  apply Forall2_runs_tables. intros run Hrun.
  by apply (table_of_run_matches _ (raw_rows results)).
Qed.

Lemma columns_follow_rows_witness :
  Forall well_formed (raw_rows (Some <$> scenario))
  ∧ ∃ e ts,
      init ∅ (Some <$> scenario) = Return e
      ∧ (∀ n, (extract_n n e).1 = results_of n (Return <$> ts))
      ∧ Forall2 (λ run t, Forall2 column_matches run (tm_columns t))
          (runs (raw_rows (Some <$> scenario))) ts
      ∧ concat (runs (raw_rows (Some <$> scenario)))
        = raw_rows (Some <$> scenario).
Proof.
  split; [by_computation|].
  apply (columns_follow_rows ∅ (Some <$> scenario)). by_computation.
Defined.

(** C3. Once [extract()] has returned the sentinel, every later call
    returns it too and leaves the extractor, its finished generator and
    its row source as they are. *)
Theorem sentinel_is_final self self' :
  extract self = (Return None, self') →
  _extract_iter self' = Some GenFinished
  ∧ ∀ n, extract_n n self' = (replicate n (Return None), self').
Proof.
  intros Hext. destruct (extract_inv self) as (a & it & Hself & Hres).
  rewrite Hext in Hself, Hres. simpl in *. subst.
  split; [done|]. intros n. apply extract_n_finished.
Qed.

Lemma sentinel_is_final_witness :
  let self := mk_self "gold" " " {| pending := []; calls := 0; broken := None |} None in
  let self' := mk_self "gold" " " {| pending := []; calls := 1; broken := None |}
                 (Some GenFinished) in
  extract self = (Return None, self')
  ∧ _extract_iter self' = Some GenFinished
  ∧ ∀ n, extract_n n self' = (replicate n (Return None), self').
Proof.
  intros self self'.
  assert (extract self = (Return None, self')) as H by reflexivity.
  split; [exact H|]. exact (sentinel_is_final self self' H).
Defined.

(** C4. Whatever the configuration and the results of the row source,
    every table that [extract()] returns has database [druid] and an
    empty description, and so has every column in it. *)
Theorem emitted_constants conf results :
  ∃ e, init conf results = Return e
       ∧ ∀ n, Forall emitted_ok (extract_n n e).1.
Proof.
  rewrite init_eq. eexists. split; [done|]. intros n. apply extract_n_emitted_ok.
Qed.

Lemma runs_nil_inv (l : list row) : runs l = [] → l = [].
Proof.
  intros Hl. rewrite <-(runs_by_concat table_key l).
  unfold runs in Hl. by rewrite Hl.
Qed.

Lemma run_of_runs k run : run_of k run → runs run = [run].
Proof.
  intros [Hne Hall]. apply runs_by_homog_run; [done|].
  intros x y Hx Hy. eapply Forall_forall in Hx, Hy; [|done..]. congruence.
Qed.

Lemma run_of_head k run rest x :
  run_of k run → head (run ++ rest) = Some x → table_key x = k.
Proof.
  intros [Hne Hall]. destruct run as [|y run]; [done|].
  intros [= <-]. by apply Forall_cons in Hall as [? _].
Qed.

Lemma run_of_last k run x : run_of k run → last run = Some x → table_key x = k.
Proof.
  intros [_ Hall] Hx. eapply Forall_forall in Hall; [done|].
  by apply last_Some_elem_of.
Qed.

(** The runs of rows in which two stretches of one table are kept apart
    by rows of other tables. *)
Lemma runs_separated k pre A B C post :
  run_of k A → run_of k C → B ≠ [] →
  not_of k (last pre) → not_of k (head B) → not_of k (last B) →
  not_of k (head post) →
  runs (pre ++ A ++ B ++ C ++ post)
  = runs pre ++ [A] ++ runs B ++ [C] ++ runs post.
Proof.
  intros HA HC HB Hpre HhB HlB Hpost. unfold runs.
  rewrite runs_by_app; cycle 1.
  { intros x y Hx Hy. apply (run_of_head k) in Hy; [|done].
    rewrite Hy. by apply Hpre. }
  f_equal. rewrite runs_by_app; cycle 1.
  { intros x y Hx Hy. apply (run_of_last k) in Hx; [|done].
    rewrite Hx. apply not_eq_sym, HhB. by destruct B. }
  fold runs. rewrite (run_of_runs k A) by done. f_equal. unfold runs.
  rewrite runs_by_app; cycle 1.
  { intros x y Hx Hy. apply (run_of_head k) in Hy; [|done].
    rewrite Hy. by apply HlB. }
  f_equal. rewrite runs_by_app; cycle 1.
  { intros x y Hx Hy. apply (run_of_last k) in Hx; [|done].
    rewrite Hx. by apply not_eq_sym, Hpost. }
  fold runs. by rewrite (run_of_runs k C).
Qed.

(** C5. When rows of one table come in two stretches with rows of other
    tables in between, each stretch gives a table of its own, with the
    columns of its own rows only, and tables of the rows in between are
    returned between the two. *)
Theorem separated_runs_stay_apart conf results k pre A B C post :
  raw_rows results = pre ++ A ++ B ++ C ++ post →
  Forall well_formed (raw_rows results) →
  run_of k A → run_of k C → B ≠ [] →
  not_of k (last pre) → not_of k (head B) → not_of k (last B) →
  not_of k (head post) →
  ∃ e ts i j tA tC,
    init conf results = Return e
    ∧ (∀ n, (extract_n n e).1 = results_of n (Return <$> ts))
    ∧ i + 1 < j ∧ ts !! i = Some tA ∧ ts !! j = Some tC
    ∧ table_matches A tA ∧ Forall2 column_matches A (tm_columns tA)
    ∧ table_matches C tC ∧ Forall2 column_matches C (tm_columns tC).
Proof.
  intros Hrows Hwf HA HC HB Hpre HhB HlB Hpost.
  destruct (init_extract_n_wf conf results Hwf) as (e & Hinit & Htrace).
  pose proof (runs_separated k pre A B C post HA HC HB Hpre HhB HlB Hpost) as Hruns.
  rewrite <-Hrows in Hruns.
  assert (runs (raw_rows results) !! length (runs pre) = Some A) as HiA.
  { rewrite Hruns, lookup_app_r by lia. by rewrite Nat.sub_diag. }
  assert (runs (raw_rows results) !! (length (runs pre) + 1 + length (runs B))
          = Some C) as HiC.
  { rewrite Hruns, lookup_app_r by lia.
    replace (length (runs pre) + 1 + length (runs B) - length (runs pre))
      with (S (length (runs B))) by lia.
    simpl. rewrite lookup_app_r by lia.
    by rewrite Nat.sub_diag. }
  exists e, (table_of_run (_cluster e) <$> runs (raw_rows results)),
    (length (runs pre)), (length (runs pre) + 1 + length (runs B)),
    (table_of_run (_cluster e) A), (table_of_run (_cluster e) C).
  destruct (table_of_run_matches (_cluster e) _ A Hwf) as (? & ? & _);
    [by eapply list_elem_of_lookup_2|].
  destruct (table_of_run_matches (_cluster e) _ C Hwf) as (? & ? & _);
    [by eapply list_elem_of_lookup_2|].
  split_and!; [done|done| |by rewrite list_lookup_fmap, HiA
               |by rewrite list_lookup_fmap, HiC|done..].
  destruct (runs B) as [|b bs] eqn:HrB; [by apply runs_nil_inv in HrB|].
  simpl. lia.
Qed.

Lemma separated_runs_stay_apart_witness :
  let k := (Some (VStr "s1"), Some (VStr "t1")) in
  let A := [row_of "s1" "t1" "a" "STRING" 1] in
  let B := [row_of "s1" "t2" "c" "STRING" 1] in
  let C := [row_of "s1" "t1" "b" "LONG" 2] in
  raw_rows (Some <$> interleaved) = [] ++ A ++ B ++ C ++ []
  ∧ Forall well_formed (raw_rows (Some <$> interleaved))
  ∧ run_of k A ∧ run_of k C ∧ B ≠ []
  ∧ not_of k (last []) ∧ not_of k (head B) ∧ not_of k (last B)
  ∧ not_of k (head [])
  ∧ ∃ e ts i j tA tC,
      init ∅ (Some <$> interleaved) = Return e
      ∧ (∀ n, (extract_n n e).1 = results_of n (Return <$> ts))
      ∧ i + 1 < j ∧ ts !! i = Some tA ∧ ts !! j = Some tC
      ∧ table_matches A tA ∧ Forall2 column_matches A (tm_columns tA)
      ∧ table_matches C tC ∧ Forall2 column_matches C (tm_columns tC).
Proof.
  intros k A B C.
  assert (raw_rows (Some <$> interleaved) = [] ++ A ++ B ++ C ++ []) as H1
    by (vm_compute; reflexivity).
  assert (Forall well_formed (raw_rows (Some <$> interleaved))) as H2
    by by_computation.
  assert (run_of k A) as H3 by (split; [done|by_computation]).
  assert (run_of k C) as H4 by (split; [done|by_computation]).
  assert (B ≠ []) as H5 by done.
  assert (not_of k (last [])) as H6 by (intros r; discriminate).
  assert (not_of k (head B)) as H7
    by (intros r [= <-]; vm_compute; discriminate).
  assert (not_of k (last B)) as H8
    by (intros r [= <-]; vm_compute; discriminate).
  assert (not_of k (head [])) as H9 by (intros r; discriminate).
  split_and!; [done..|].
  exact (separated_runs_stay_apart ∅ (Some <$> interleaved) k [] A B C []
           H1 H2 H3 H4 H5 H6 H7 H8 H9).
Defined.

(** C6. When the row source has no row to give, the first call of
    [extract()] returns the sentinel, and so does every call: no table is
    ever returned. *)
Theorem no_rows_no_tables conf results :
  raw_rows results = [] →
  ∃ e, init conf results = Return e
       ∧ (extract e).1 = Return None
       ∧ ∀ n, (extract_n n e).1 = replicate n (Return None).
Proof.
  intros Hrows. rewrite init_eq. eexists. split; [done|].
  assert (∀ n, (extract_n n
                  (mk_self (default "gold" (conf !! "cluster"))
                     (select_from_clause
                      +:+ default " " (conf !! "where_clause_suffix")
                      +:+ order_by_clause)
                     {| pending := results; calls := 0; broken := None |} None)).1
               = replicate n (Return None)) as Hall.
  { intros n. by rewrite extract_n_entities, Hrows, results_of_nil. }
  split; [|done].
  specialize (Hall 1). cbn [extract_n] in Hall.
  destruct (extract _) as [r self']. simpl in *. congruence.
Qed.

Lemma no_rows_no_tables_witness :
  raw_rows [] = []
  ∧ ∃ e, init ∅ [] = Return e
         ∧ (extract e).1 = Return None
         ∧ ∀ n, (extract_n n e).1 = replicate n (Return None).
Proof.
  split; [reflexivity|]. apply (no_rows_no_tables ∅ []). reflexivity.
Defined.

(** Where not all rows are well-formed there is a first one that is not. *)
Lemma first_bad_row (rows : list row) :
  ¬ Forall well_formed rows →
  ∃ good bad rest, rows = good ++ bad :: rest
                   ∧ Forall well_formed good ∧ ¬ well_formed bad.
Proof.
  induction rows as [|r rows IH]; intros Hnot; [by destruct Hnot|].
  destruct (decide (well_formed r)) as [Hr|Hr].
  - destruct IH as (good & bad & rest & -> & Hgood & Hbad).
    { intros Hrows. apply Hnot. by constructor. }
    exists (r :: good), bad, rest. split_and!; [done| |done]. by constructor.
  - by exists [], r, rows.
Qed.

(** C7. When a row that the raw generator yields lacks one of the
    expected fields, a call of [extract()] raises the lookup failure for a
    field that the first such row lacks.  The calls before it return
    tables of whole runs of the rows before that row, with all their
    columns, and the run that the row would continue is not among them:
    nothing partial is returned, and nothing catches the failure. *)
Theorem malformed_row_raises conf results :
  ¬ Forall well_formed (raw_rows results) →
  ∃ e good bad rest m k ts,
    init conf results = Return e
    ∧ raw_rows results = good ++ bad :: rest
    ∧ Forall well_formed good ∧ ¬ well_formed bad
    ∧ k ∈ expected_fields ∧ bad !! k = None
    ∧ (∀ n, (extract_n n e).1
            = results_of n ((Return <$> ts) ++ [Raise (KeyError k)]))
    ∧ (extract_n (S m) e).1 !! m = Some (Raise (KeyError k))
    ∧ Forall2 (λ run t, table_matches run t
                        ∧ Forall2 column_matches run (tm_columns t))
        (take m (runs good)) ts
    ∧ (S m = length (runs good)
       ∨ (m = length (runs good) ∧ not_of (table_key bad) (last good))).
Proof.
  intros Hnot.
  destruct (first_bad_row _ Hnot) as (good & bad & rest & Hrows & Hgood & Hbad).
  rewrite init_eq. eexists. exists good, bad, rest.
  set (cluster := default "gold" (conf !! "cluster")).
  destruct (entities_bad cluster good bad rest Hgood Hbad)
    as (m & k & Hent & Hk & Hnone & Hm).
  exists m, k, (table_of_run cluster <$> take m (runs good)).
  assert (length (take m (runs good)) = m) as Hlen.
  { rewrite length_take. destruct Hm as [Hm|[Hm _]]; lia. }
  assert (∀ n, (extract_n n
                  (mk_self cluster
                     (select_from_clause
                      +:+ default " " (conf !! "where_clause_suffix")
                      +:+ order_by_clause)
                     {| pending := results; calls := 0; broken := None |} None)).1
               = results_of n
                   ((Return <$> (table_of_run cluster <$> take m (runs good)))
                    ++ [Raise (KeyError k)])) as Htrace.
  { intros n. by rewrite extract_n_entities, Hrows, Hent, <-fmap_take. }
  split_and!; [done..| | | |].
  - done.
  - rewrite Htrace, results_of_take.
    rewrite lookup_take_lt by lia. rewrite fmap_app.
    rewrite lookup_app_l; [|rewrite length_app, !length_fmap; simpl; lia].
    rewrite lookup_app_r; [|by rewrite !length_fmap, Hlen].
    by rewrite !length_fmap, Hlen, Nat.sub_diag.
  - apply Forall2_fmap_r, Forall_Forall2_diag, Forall_forall.
    intros run Hrun.
    assert (run ∈ runs good) as Hin.
    { apply list_elem_of_lookup in Hrun as [i Hi].
      apply lookup_take_Some in Hi as [Hi _]. by eapply list_elem_of_lookup_2. }
    by destruct (table_of_run_matches cluster good run Hgood Hin) as (? & ? & _).
  - destruct Hm as [Hm|[Hm Hlast]]; [by left|right]. by split.
Qed.

Lemma malformed_row_raises_witness :
  let results := Some <$> scenario ++ [nameless] in
  ¬ Forall well_formed (raw_rows results)
  ∧ ∃ e good bad rest m k ts,
      init ∅ results = Return e
      ∧ raw_rows results = good ++ bad :: rest
      ∧ Forall well_formed good ∧ ¬ well_formed bad
      ∧ k ∈ expected_fields ∧ bad !! k = None
      ∧ (∀ n, (extract_n n e).1
              = results_of n ((Return <$> ts) ++ [Raise (KeyError k)]))
      ∧ (extract_n (S m) e).1 !! m = Some (Raise (KeyError k))
      ∧ Forall2 (λ run t, table_matches run t
                          ∧ Forall2 column_matches run (tm_columns t))
          (take m (runs good)) ts
      ∧ (S m = length (runs good)
         ∨ (m = length (runs good) ∧ not_of (table_key bad) (last good))).
Proof.
  intros results.
  assert (¬ Forall well_formed (raw_rows results)) as H by by_computation.
  split; [exact H|]. exact (malformed_row_raises ∅ results H).
Defined.

Lemma results_of_no_failure n (ts : list TableMetadata) :
  Forall no_failure (results_of n (Return <$> ts)).
Proof.
  revert ts. induction n as [|n IH]; intros ts; [constructor|].
  destruct ts as [|t ts]; cbn [fmap list_fmap results_of].
  - constructor; [done|]. apply (IH []).
  - constructor; [done|]. apply IH.
Qed.

(** The case that C7 cannot cover: an empty row, handed out by the row
    source, lacks every expected field, and yet no call of [extract()]
    raises.  The row is falsy, so it ends the stream as the end of the
    results does: the table of the rows before it is returned, then the
    sentinel, and the row after it is never looked at. *)
Lemma empty_row_raises_nothing :
  Some (∅ : row) ∈ empty_row_input
  ∧ Forall (λ k, (∅ : row) !! k = None) expected_fields
  ∧ ∃ e, init ∅ empty_row_input = Return e
         ∧ (extract_n 3 e).1
           = [ Return (Some (table "gold" "s1" "t1" [column "a" "STRING" 1]));
               Return None; Return None ]
         ∧ ∀ n, Forall no_failure (extract_n n e).1.
Proof.
  split; [right; left|]. split; [by repeat constructor|].
  rewrite init_eq. eexists. split; [done|]. split; [vm_compute; reflexivity|].
  intros n. rewrite extract_n_entities.
  change (entities _ (raw_rows empty_row_input))
    with (Return <$> [table "gold" "s1" "t1" [column "a" "STRING" 1]]).
  apply results_of_no_failure.
Qed.

(** C8. The configuration is the caller's with the defaults as fallback:
    the cluster is the caller's value if there is one and [gold]
    otherwise, the suffix is the caller's value if there is one and a
    blank otherwise; and every table that is returned carries that
    cluster. *)
Theorem config_fallback conf results :
  with_fallback conf DEFAULT_CONFIG !! CLUSTER_KEY
  = Some (default "gold" (conf !! CLUSTER_KEY))
  ∧ with_fallback conf DEFAULT_CONFIG !! WHERE_CLAUSE_SUFFIX_KEY
    = Some (default " " (conf !! WHERE_CLAUSE_SUFFIX_KEY))
  ∧ ∃ e, init conf results = Return e
         ∧ _cluster e = default "gold" (conf !! CLUSTER_KEY)
         ∧ sql_stmt e = select_from_clause
                        +:+ default " " (conf !! WHERE_CLAUSE_SUFFIX_KEY)
                        +:+ order_by_clause
         ∧ ∀ n, Forall (stamped (default "gold" (conf !! CLUSTER_KEY)))
                  (extract_n n e).1.
Proof.
  rewrite !with_fallback_lookup. unfold CLUSTER_KEY, WHERE_CLAUSE_SUFFIX_KEY.
  split_and!.
  - by destruct (conf !! "cluster").
  - by destruct (conf !! "where_clause_suffix").
  - rewrite init_eq. eexists. split_and!; [done..|].
    intros n. apply (extract_n_stamped n (mk_self _ _ _ _)).
Qed.

(** C9. The statement that [init] builds is the template with the
    configured suffix, as it is, in the place of the replacement field:
    after the FROM clause and before the ORDER BY clause, which are those
    of the template. *)
Theorem suffix_in_statement conf results w :
  conf !! WHERE_CLAUSE_SUFFIX_KEY = Some w →
  SQL_STATEMENT
  = select_from_clause +:+ "{where_clause_suffix}" +:+ order_by_clause
  ∧ ∃ e, init conf results = Return e
         ∧ sql_stmt e = select_from_clause +:+ w +:+ order_by_clause.
Proof.
  intros Hw. split; [apply SQL_STATEMENT_template|].
  rewrite init_eq. eexists. split; [done|].
  unfold WHERE_CLAUSE_SUFFIX_KEY in Hw. cbn [sql_stmt mk_self]. by rewrite Hw.
Qed.

Lemma suffix_in_statement_witness :
  let conf : gmap string string :=
    {[ "where_clause_suffix" := "WHERE TABLE_SCHEMA = 'x'" ]} in
  conf !! WHERE_CLAUSE_SUFFIX_KEY = Some "WHERE TABLE_SCHEMA = 'x'"
  ∧ SQL_STATEMENT
    = select_from_clause +:+ "{where_clause_suffix}" +:+ order_by_clause
  ∧ ∃ e, init conf [] = Return e
         ∧ sql_stmt e = select_from_clause +:+ "WHERE TABLE_SCHEMA = 'x'"
                        +:+ order_by_clause.
Proof.
  intros conf. split; [reflexivity|].
  apply (suffix_in_statement conf [] "WHERE TABLE_SCHEMA = 'x'"). reflexivity.
Defined.

(** C10. The raw generator yields the results of the source up to the
    first falsy one, takes that one, returns, and never calls the source
    again; so what the source holds after the falsy result stays there
    whatever the number of calls of [extract()], and the calls return
    what they would return had the source held the rows before the falsy
    result only. *)
Theorem falsy_result_ends_stream conf results pre f post :
  results = (Some <$> pre) ++ f :: post →
  Forall (λ d, dict_truthy d = true) pre →
  truthy f = false →
  (∀ k c tgt ck cv i,
     raw_next_n (length pre + S k) (mk_heap results c false tgt ck cv i)
     = ((Return <$> pre) ++ replicate (S k) (Raise StopIteration),
        mk_heap post (c + length pre + 1) true tgt ck cv i))
  ∧ ∃ e e',
      init conf results = Return e
      ∧ init conf (Some <$> pre) = Return e'
      ∧ ∀ n, (extract_n n e).1 = (extract_n n e').1
             ∧ post `suffix_of` pending (_alchemy_extractor (extract_n n e).2)
             ∧ calls (_alchemy_extractor (extract_n n e).2) ≤ S (length pre).
Proof.
  intros -> Hpre Hf. split.
  { intros k c tgt ck cv i. by apply raw_next_n_trace. }
  rewrite !init_eq. do 2 eexists. split_and!; [done..|]. intros n.
  assert (raw_rows ((Some <$> pre) ++ f :: post) = pre
          ∧ raw_rows (Some <$> pre) = pre) as [Hr1 Hr2].
  { clear -Hpre Hf. induction Hpre as [|d pre Hd _ [IH1 IH2]]; simpl.
    - split; [|done]. destruct f as [d|]; [|done]. simpl in Hf. by rewrite Hf.
    - rewrite Hd. change (list_fmap _ _ ?g ?l) with (g <$> l).
      by rewrite IH1, IH2. }
  split; [by rewrite !extract_n_entities, Hr1, Hr2|].
  apply (extractor_kept_suffix (length pre) f post).
  apply extract_n_kept; [done|].
  left. split; [done|]. by exists pre.
Qed.

Lemma falsy_result_ends_stream_witness :
  let pre := [row_of "s1" "t1" "a" "STRING" 1] in
  let post := [Some (row_of "s1" "t2" "c" "STRING" 1)] in
  let results := (Some <$> pre) ++ Some ∅ :: post in
  results = (Some <$> pre) ++ Some ∅ :: post
  ∧ Forall (λ d, dict_truthy d = true) pre
  ∧ truthy (Some ∅) = false
  ∧ (∀ k c tgt ck cv i,
       raw_next_n (length pre + S k) (mk_heap results c false tgt ck cv i)
       = ((Return <$> pre) ++ replicate (S k) (Raise StopIteration),
          mk_heap post (c + length pre + 1) true tgt ck cv i))
  ∧ ∃ e e',
      init ∅ results = Return e
      ∧ init ∅ (Some <$> pre) = Return e'
      ∧ ∀ n, (extract_n n e).1 = (extract_n n e').1
             ∧ post `suffix_of` pending (_alchemy_extractor (extract_n n e).2)
             ∧ calls (_alchemy_extractor (extract_n n e).2) ≤ S (length pre).
Proof.
  intros pre post results.
  assert (Forall (λ d, dict_truthy d = true) pre) as H1
    by (repeat constructor).
  assert (truthy (Some (∅ : row)) = false) as H2 by reflexivity.
  split_and!; [reflexivity|exact H1|exact H2|..];
    apply (falsy_result_ends_stream ∅ results pre (Some ∅) post eq_refl H1 H2).
Defined.

End Claims.


(** ** Further properties of the extractor *)

Section Failures.

(** X1. Once [extract()] has raised an exception, the generator is finished:
    every later call returns the sentinel and leaves the extractor and its
    row source as they are; the failure is not raised again and the rows
    are not taken up again. *)
Theorem failure_is_final self e self' :
  extract self = (Raise e, self') →
  _extract_iter self' = Some GenFinished
  ∧ ∀ n, extract_n n self' = (replicate n (Return None), self').
Proof.
  intros Hext. destruct (extract_inv self) as (a & it & Hself & Hres).
  rewrite Hext in Hself, Hres. simpl in *. destruct Hres as (-> & _).
  subst self'. split; [done|]. intros n. apply extract_n_finished.
Qed.

Lemma failure_is_final_witness :
  let self := mk_self "gold" " "
                {| pending := [Some nameless]; calls := 0; broken := None |} None in
  let self' := mk_self "gold" " " {| pending := []; calls := 1; broken := None |}
                 (Some GenFinished) in
  extract self = (Raise (KeyError "col_name"), self')
  ∧ _extract_iter self' = Some GenFinished
  ∧ ∀ n, extract_n n self' = (replicate n (Return None), self').
Proof.
  intros self self'.
  assert (extract self = (Raise (KeyError "col_name"), self')) as H
    by (vm_compute; reflexivity).
  split; [exact H|]. exact (failure_is_final self (KeyError "col_name") self' H).
Defined.

End Failures.

Section Lazy.

Lemma groupby_store_eq v h :
  groupby_store v h
  = match _get_table_key v with
    | Return k =>
      (Return (), {| alch := alch h;
                     grp := set_currkey (KVal k) (set_currvalue (Dict v) (grp h)) |})
    | Raise e =>
      (Raise e, {| alch := alch h; grp := set_currvalue (Dict v) (grp h) |})
    end.
Proof.
  unfold groupby_store, bind, lift, modify_grp, bind; simpl.
  by destruct (_get_table_key v).
Qed.

(** The calls of the source that the inner loop makes: one per column that
    it adds, the first column being the row that [groupby] already held and
    the last call being the one that ends the group. *)
Lemma for_row_in_group_lazy fuel :
  ∀ gr cols lr h cols' lr' h',
    for_row_in_group fuel gr cols lr h = (Return (cols', lr'), h') →
    it_finished (grp h) = false →
    gid (grp h) = grouper_id gr →
    currkey (grp h) = grouper_tgtkey gr →
    calls (alch h') + length cols
    = calls (alch h) + length cols' + (if grouper_started gr then 1 else 0)
    ∧ tgtkey (grp h') = tgtkey (grp h)
    ∧ ((it_finished (grp h') = true ∧ currkey (grp h') = grouper_tgtkey gr)
       ∨ (it_finished (grp h') = false
          ∧ ∃ k, currkey (grp h') = KVal k ∧ KVal k ≠ grouper_tgtkey gr)).
Proof.
  induction fuel as [|fuel IH]; intros gr cols lr h cols' lr' h'; [done|].
  cbn [for_row_in_group]. unfold grouper_next.
  destruct (grouper_started gr) eqn:Hst; intros Hloop Hfin Hgid Hkey.
  - unfold bind at 1 in Hloop.
    destruct (raw_next_cases h)
      as [[Hf _]|[(_ & d & p & Hp & Hd & Hnext)
                 |[(_ & Hhead & Hnext)|(_ & _ & msg & _ & Hnext)]]];
      [congruence|..]; rewrite Hnext in Hloop; clear Hnext; [| |done].
    + unfold bind at 1 in Hloop. rewrite groupby_store_eq in Hloop.
      cbn [alch grp] in Hloop.
      destruct (_get_table_key d) as [k|e] eqn:Hk; cycle 1.
      { apply get_table_key_raise in Hk as (f & -> & _). done. }
      unfold grouper_test, bind, get_grp in Hloop. cbn [grp gid currkey set_currkey
        set_currvalue] in Hloop.
      rewrite bool_decide_eq_true_2 in Hloop by done. cbn [andb] in Hloop.
      destruct (bool_decide (KVal k = grouper_tgtkey gr)) eqn:Hsame.
      * apply bool_decide_eq_true_1 in Hsame.
        unfold ret, bind, lift in Hloop.
        destruct (new_column _) as [c|e]; [|done].
        apply IH in Hloop as (Hcalls & Htgt & Hend); [|done..].
        cbn [alch grp calls tgtkey grouper_started grouper_tgtkey set_currkey
          set_currvalue] in *.
        rewrite length_app in Hcalls. simpl in Hcalls.
        split_and!; [lia|done|done].
      * apply bool_decide_eq_false_1 in Hsame.
        injection Hloop as <- <- <-. cbn [alch grp calls]. simpl.
        split_and!; [lia|done|]. right. split; [done|]. by exists k.
    + injection Hloop as <- <- <-. cbn [alch grp calls]. simpl.
      split_and!; [lia|done|]. by left.
  - unfold grouper_test, bind, get_grp in Hloop.
    rewrite !bool_decide_eq_true_2 in Hloop by done. cbn [andb] in Hloop.
    unfold ret, lift in Hloop.
    destruct (new_column (currvalue (grp h))) as [c|e]; [|done].
    apply IH in Hloop as (Hcalls & Htgt & Hend); [|done..].
    cbn [grouper_started grouper_tgtkey] in *.
    rewrite length_app in Hcalls. simpl in Hcalls.
    split_and!; [lia|done|done].
Qed.

Lemma outer_pass_inv cluster lr h t lr' h' :
  outer_pass cluster lr h = (Return (t, lr'), h') →
  ∃ key group h1 cols,
    groupby_next h = (Return (key, group), h1)
    ∧ for_row_in_group (2 + length (pending (alch h1))) group [] lr h1
      = (Return (cols, lr'), h')
    ∧ new_table cluster lr' cols = Return t.
Proof.
  unfold outer_pass. unfold bind at 1.
  destruct (groupby_next h) as [[[key group]|e] h1]; [|done].
  unfold bind at 1, loop_budget at 1. cbn beta iota. unfold bind at 1.
  destruct (for_row_in_group _ _ _ _ _) as [[[cols lr1]|e] h2] eqn:Hloop; [|done].
  unfold bind, lift, ret.
  destruct (new_table cluster lr1 cols) as [t'|e] eqn:Ht; [|done].
  intros [= <- <- <-]. by exists key, group, h1, cols.
Qed.

(** A pass of the generator that yields a table has called the source once
    for every column of the table. *)
Lemma next_lazy cluster gen a m t gen' a' :
  generator_lazy m gen a →
  _get_extract_iter_next cluster gen a = (Return t, gen', a') →
  generator_lazy (m + length (tm_columns t)) gen' a'
  ∧ gen' ≠ GenCreated.
Proof.
  assert (∀ g lr h1 key group,
    groupby_next {| alch := a; grp := g |} = (Return (key, group), h1) →
    it_finished (grp h1) = false ∧ gid (grp h1) = grouper_id group
    ∧ currkey (grp h1) = grouper_tgtkey group
    ∧ tgtkey (grp h1) = grouper_tgtkey group
    ∧ grouper_started group = false →
    ∀ c, calls (alch h1) = S c → broken a = None →
    resume cluster g lr a = (Return t, gen', a') →
    generator_lazy (c + length (tm_columns t)) gen' a' ∧ gen' ≠ GenCreated)
    as Hpass.
  { intros g lr h1 key group Hnext (Hfin & Hgid & Hkey & Htgt & Hst) c Hc Hb.
    unfold resume.
    pose proof (outer_pass_broken cluster lr {| alch := a; grp := g |}) as Hb'.
    destruct (outer_pass _ _ _) as [[[t' lr']|e] h'] eqn:Hpass; [|done].
    cbn [snd alch] in Hb'. rewrite Hb in Hb'.
    intros [= -> <- <-].
    apply outer_pass_inv in Hpass as (key' & group' & h1' & cols & Hnext' & Hloop & Ht).
    rewrite Hnext in Hnext'. injection Hnext' as <- <- <-.
    apply for_row_in_group_lazy in Hloop as (Hcalls & Htgt' & Hend); [|done..].
    apply new_table_fields in Ht as (_ & _ & _ & ->).
    rewrite Hst in Hcalls. simpl in Hcalls.
    split; [|done]. split_and!; [|lia|done].
    rewrite Htgt in Htgt'. unfold groupby_ahead. rewrite Htgt'.
    destruct Hend as [[? ?]|(? & k & ? & ?)]; [by right|left].
    split; [done|]. by exists k. }
  destruct gen as [|g lr|]; cbn [generator_lazy _get_extract_iter_next];
    [intros [Hm Hb]|intros (Hahead & Hm & Hb)|done].
  - destruct a as [p c b]. simpl in Hm, Hb. subst c b.
    destruct p as [|[d|] p].
    + intros Hres. unfold resume, outer_pass in Hres. unfold bind at 1 in Hres.
      by rewrite groupby_next_fresh_end in Hres.
    + destruct (dict_truthy d) eqn:Hd; cycle 1.
      { intros Hres. unfold resume, outer_pass in Hres. unfold bind at 1 in Hres.
        by rewrite groupby_next_fresh_end in Hres. }
      destruct (_get_table_key d) as [k|e] eqn:Hk; cycle 1.
      { intros Hres. unfold resume, outer_pass in Hres. unfold bind at 1 in Hres.
        by rewrite (groupby_next_fresh_key_error _ _ _ e) in Hres. }
      intros Hres.
      eapply (Hpass groupby_new None);
        [by apply groupby_next_fresh_row|by split_and!|done|done|exact Hres].
    + intros Hres. unfold resume, outer_pass in Hres. unfold bind at 1 in Hres.
      by rewrite groupby_next_fresh_end in Hres.
  - destruct a as [p c b], g as [fin tgt ck cv i]. simpl in Hm, Hb. subst c b.
    destruct Hahead as [(Hfin & k & Hck & Hne)|(Hfin & Hck)]; simpl in *; subst.
    + intros Hres.
      eapply (Hpass _ lr);
        [by apply (groupby_next_ahead p (S m) false tgt k cv i)
        |by split_and!|done|done|exact Hres].
    + intros Hres. unfold resume, outer_pass in Hres. unfold bind at 1 in Hres.
      change {| alch := _; grp := _ |} with (mk_heap p (S m) true tgt tgt cv i) in Hres.
      by rewrite groupby_next_exhausted in Hres.
Qed.

Lemma extract_lazy self m t self' :
  extractor_lazy m self →
  extract self = (Return (Some t), self') →
  extractor_lazy (m + length (tm_columns t)) self'
  ∧ ∃ g lr, _extract_iter self' = Some (GenSuspended g lr).
Proof.
  unfold extractor_lazy, extract. intros Hself.
  destruct (_get_extract_iter_next _ _ _) as [[r gen'] a'] eqn:Hnext.
  destruct r as [t'|e]; [|by destruct e].
  intros [= -> <-]. cbn [_extract_iter _alchemy_extractor].
  apply (next_lazy _ _ _ m) in Hnext as [Hlazy Hne]; [|done].
  split; [done|]. destruct gen' as [|g lr|]; [done|by exists g, lr|done].
Qed.

Lemma extract_n_lazy n :
  ∀ self m,
    extractor_lazy m self →
    Forall is_table (extract_n n self).1 →
    extractor_lazy (m + columns_returned (extract_n n self).1) (extract_n n self).2.
Proof.
  induction n as [|n IH]; intros self m Hself.
  - intros _. unfold columns_returned. simpl. by rewrite Nat.add_0_r.
  - cbn [extract_n]. destruct (extract self) as [r self'] eqn:Hext.
    specialize (IH self'). destruct (extract_n n self') as [rs self''].
    cbn [fst snd] in *. intros [Hr Hrs]%Forall_cons.
    destruct r as [[t|]|e]; [|done..].
    apply (extract_lazy _ m) in Hext as [Hself' _]; [|done].
    specialize (IH _ Hself' Hrs).
    unfold columns_returned in *. cbn [fmap list_fmap sum_list sum_list_with].
    change (list_fmap _ _ ?f ?l) with (f <$> l).
    by rewrite Nat.add_assoc.
Qed.

Lemma extract_n_suspended n :
  ∀ self m,
    extractor_lazy m self →
    Forall is_table (extract_n (S n) self).1 →
    ∃ g lr, _extract_iter (extract_n (S n) self).2 = Some (GenSuspended g lr).
Proof.
  induction n as [|n IH]; intros self m Hself Htables.
  - cbn [extract_n] in *. destruct (extract self) as [r self'] eqn:Hext.
    cbn [fst snd] in *. apply Forall_cons in Htables as [Hr _].
    destruct r as [[t|]|]; [|done..].
    by apply (extract_lazy _ m) in Hext as [_ ?].
  - change (extract_n (S (S n)) self)
      with (let '(r, self') := extract self in
            let '(rs, self'') := extract_n (S n) self' in (r :: rs, self''))
      in Htables |- *.
    destruct (extract self) as [r self'] eqn:Hext.
    specialize (IH self').
    destruct (extract_n (S n) self') as [rs self''].
    cbn [fst snd] in *. apply Forall_cons in Htables as [Hr Hrs].
    destruct r as [[t|]|]; [|done..].
    apply (extract_lazy _ m) in Hext as [Hself' _]; [|done].
    by apply (IH _ Hself').
Qed.

(** X3. [extract()] reads one row ahead and no more: as long as the calls
    have returned tables, the row source has been called once for every
    column of those tables and once more, for the row (or the end) that
    closed the last table. *)
Theorem extract_reads_one_row_ahead conf results n e :
  init conf results = Return e →
  0 < n →
  Forall is_table (extract_n n e).1 →
  calls (_alchemy_extractor (extract_n n e).2)
  = S (columns_returned (extract_n n e).1).
Proof.
  rewrite init_eq. intros [= <-] Hn Htables.
  assert (extractor_lazy 0
            (mk_self (default "gold" (conf !! "cluster"))
               (select_from_clause
                +:+ default " " (conf !! "where_clause_suffix")
                +:+ order_by_clause)
               {| pending := results; calls := 0; broken := None |} None)) as He by done.
  pose proof (extract_n_lazy n _ 0 He Htables) as Hlazy. simpl in Hlazy.
  destruct n as [|n]; [lia|].
  destruct (extract_n_suspended n _ 0 He Htables) as (g & lr & Hit).
  unfold extractor_lazy in Hlazy. rewrite Hit in Hlazy.
  by destruct Hlazy as (_ & -> & _).
Qed.

Lemma extract_reads_one_row_ahead_witness :
  ∃ e, init ∅ (Some <$> scenario) = Return e
       ∧ 0 < 2
       ∧ Forall is_table (extract_n 2 e).1
       ∧ calls (_alchemy_extractor (extract_n 2 e).2)
         = S (columns_returned (extract_n 2 e).1).
Proof.
  eexists. split; [apply init_eq|].
  assert (Forall is_table
            (extract_n 2 (mk_self (default "gold" ((∅ : gmap string string) !! "cluster"))
                            (select_from_clause
                             +:+ default " " ((∅ : gmap string string)
                                              !! "where_clause_suffix")
                             +:+ order_by_clause)
                            {| pending := Some <$> scenario; calls := 0; broken := None |} None)).1)
    as H by (vm_compute; repeat constructor).
  split; [lia|]. split; [exact H|].
  exact (extract_reads_one_row_ahead ∅ (Some <$> scenario) 2 _
           (init_eq ∅ (Some <$> scenario)) (Nat.lt_0_succ 1) H).
Defined.

End Lazy.

Section Exceptions.
Context (b : option string).

Lemma triple_bind {A B} P (m : M A) Q (k : A → M B) R :
  triple b P m Q → (∀ a, triple b (Q a) (k a) R) → triple b P (bind m k) R.
Proof.
  intros Hm Hk h Hh. unfold bind. specialize (Hm h Hh).
  destruct (m h) as [[a|e] h1]; [by apply Hk|done].
Qed.

Lemma triple_weaken {A} (P P' : heap → Prop) (m : M A) Q :
  (∀ h, P' h → P h) → triple b P m Q → triple b P' m Q.
Proof. intros HP Hm h Hh. by apply Hm, HP. Qed.

Lemma triple_raw_next :
  triple b (λ h, broken (alch h) = b) _get_raw_extract_iter_next
    (λ _ h, broken (alch h) = b).
Proof.
  intros h Hh.
  destruct (raw_next_cases h)
    as [[_ ->]|[(_ & d & p & _ & _ & ->)
               |[(_ & _ & ->)|(_ & _ & msg & Hmsg & ->)]]].
  - by left.
  - done.
  - by left.
  - do 3 right. exists msg. by rewrite <-Hh.
Qed.

Lemma triple_store v :
  triple b (λ h, broken (alch h) = b) (groupby_store v) (λ _, row_held b).
Proof.
  intros h Hh. rewrite groupby_store_eq.
  destruct (_get_table_key v) as [k|e] eqn:Hk.
  - split; [done|]. by exists v.
  - apply get_table_key_raise in Hk as (f & -> & _ & Hf).
    do 2 right. left. exists f. split; [done|]. by apply key_field_expected.
Qed.

Lemma triple_skip fuel :
  triple b (row_due b) (groupby_skip fuel) (λ _, row_held b).
Proof.
  induction fuel as [|fuel IH]; [intros h _; right; by left|].
  intros h [Hb Hdue]. cbn [groupby_skip]. unfold bind at 1. cbn [get_grp].
  destruct (bool_decide _) eqn:Hsame.
  - apply (triple_bind (λ h, broken (alch h) = b) _ (λ _ h, broken (alch h) = b));
      [apply triple_raw_next| |done].
    intros v. apply (triple_bind _ _ (λ _, row_held b)); [apply triple_store|].
    intros _. eapply triple_weaken; [|exact IH].
    intros h' [? ?]. split; [done|by left].
  - apply bool_decide_eq_false_1 in Hsame.
    split; [done|]. by destruct Hdue.
Qed.

Lemma triple_groupby_next :
  triple b (row_due b) groupby_next (λ kg h, row_held b h ∧ group_open kg.2 h).
Proof.
  intros h [Hb Hdue]. unfold groupby_next, bind, get_grp, put_grp, loop_budget.
  cbn [alch grp].
  pose proof (triple_skip (2 + length (pending (alch h)))
                {| alch := alch h; grp := set_gid (S (gid (grp h))) (grp h) |})
    as Hskip.
  destruct (groupby_skip _ _) as [[[]|e] h1]; [|by apply Hskip].
  destruct Hskip as [Hb1 Hrow]; [by split|].
  unfold ret. split; [by split|]. by split_and!.
Qed.

Lemma triple_for fuel :
  ∀ gr cols lr,
    triple b (λ h, row_held b h ∧ (is_row lr ∨ group_open gr h))
      (for_row_in_group fuel gr cols lr)
      (λ res h, row_held b h ∧ is_row res.2).
Proof.
  induction fuel as [|fuel IH]; intros gr cols lr; [intros h _; right; by left|].
  intros h [[Hb [d0 Hd0]] Hlr]. cbn [for_row_in_group]. unfold grouper_next.
  assert (∀ h1 : heap,
    row_held b h1 →
    match grouper_test gr h1 with
    | (Return (row, gr'), h2) =>
      h2 = h1 ∧ is_row (Some row) ∧ grouper_started gr' = true
    | (Raise e, h2) => h2 = h1 ∧ e = StopIteration ∧ ¬ group_open gr h1
    end) as Htest.
  { intros h1 [_ [d1 Hd1]]. unfold grouper_test, bind, get_grp.
    destruct (bool_decide (gid _ = _)) eqn:Hg, (bool_decide (currkey _ = _)) eqn:Hk;
      simpl; rewrite ?Hd1; split_and?; try done; try by eexists.
    all: intros (_ & Hgid & Hkey).
    - by apply bool_decide_eq_false_1 in Hk.
    - by apply bool_decide_eq_false_1 in Hg.
    - by apply bool_decide_eq_false_1 in Hg. }
  assert (∀ h1 : heap,
    row_held b h1 → (is_row lr ∨ group_open gr h1) →
    match
      match grouper_test gr h1 with
      | (Return (row, group'), h') =>
        (let* c := lift (new_column row) in
         for_row_in_group fuel group' (cols ++ [c]) (Some row)) h'
      | (Raise StopIteration, h') => (Return (cols, lr), h')
      | (Raise e, h') => (Raise e, h')
      end
    with
    | (Return res, h') => row_held b h' ∧ is_row res.2
    | (Raise e, _) => step_failure b e
    end) as Hbody.
  { intros h1 Hh1 Hlr1. specialize (Htest h1 Hh1).
    destruct (grouper_test gr h1) as [[[row gr']|e] h2].
    - destruct Htest as (-> & [d Hd] & Hst). injection Hd as ->.
      unfold bind, lift.
      destruct (new_column (Dict d)) as [c|e] eqn:Hc.
      + apply IH. split; [done|]. left. by exists d.
      + apply new_column_raise in Hc as (f & -> & _ & Hf).
        do 2 right. left. exists f. split; [done|]. by apply column_field_expected.
    - destruct Htest as (-> & -> & Hno). split; [done|]. simpl.
      by destruct Hlr1. }
  assert (is_row lr ∨ grouper_started gr = false) as Hlr'.
  { destruct Hlr as [?|(? & _)]; [by left|by right]. }
  destruct (grouper_started gr) eqn:Hst.
  - destruct Hlr' as [Hrow|?]; [|done].
    unfold bind at 1.
    destruct (raw_next_cases h)
      as [[_ Hn]|[(_ & d & p & _ & _ & Hn)
                 |[(_ & _ & Hn)|(_ & _ & msg & Hmsg & Hn)]]]; rewrite Hn; clear Hn.
    + split; [by split; [|exists d0]|done].
    + unfold bind at 1. rewrite groupby_store_eq. cbn [alch grp].
      destruct (_get_table_key d) as [k|e] eqn:Hk.
      * apply Hbody; [|by left]. split; [done|]. by exists d.
      * apply get_table_key_raise in Hk as (f & -> & _ & Hf).
        do 2 right. left. exists f. split; [done|]. by apply key_field_expected.
    + split; [by split; [|exists d0]|done].
    + do 3 right. exists msg. by rewrite <-Hb.
  - apply Hbody; [by split; [|exists d0]|done].
Qed.

Lemma new_table_row cluster lr cols :
  is_row lr →
  match new_table cluster lr cols with
  | Return _ => True
  | Raise e => step_failure b e
  end.
Proof.
  intros [d ->]. destruct (new_table _ _ _) as [t|e] eqn:Ht; [done|].
  apply new_table_raise in Ht as (f & -> & _ & Hf).
  do 2 right. left. exists f. split; [done|]. by apply key_field_expected.
Qed.

Lemma triple_outer_pass cluster lr :
  triple b (row_due b) (outer_pass cluster lr) (λ _, row_held b).
Proof.
  unfold outer_pass.
  eapply triple_bind; [apply triple_groupby_next|]. intros [key group].
  eapply (triple_bind _ _ (λ _ h, row_held b h ∧ group_open group h)).
  { intros h Hh. exact Hh. }
  intros fuel. eapply triple_bind.
  { eapply triple_weaken; [|apply triple_for]. intros h [? ?]. split; [done|by right]. }
  intros [cols lr']. intros h [Hh Hrow]. unfold bind, lift, ret.
  pose proof (new_table_row cluster lr' cols Hrow) as Ht.
  by destruct (new_table _ _ _).
Qed.

End Exceptions.

Section SourceFailures.

Lemma next_broken cluster gen a :
  broken (_get_extract_iter_next cluster gen a).2 = broken a.
Proof.
  unfold _get_extract_iter_next, resume. destruct gen as [|g lr|]; [| |done].
  - pose proof (outer_pass_broken cluster None {| alch := a; grp := groupby_new |}).
    by destruct (outer_pass _ _ _) as [[[t lr']|e] h'].
  - pose proof (outer_pass_broken cluster lr {| alch := a; grp := g |}).
    by destruct (outer_pass _ _ _) as [[[t lr']|e] h'].
Qed.

Lemma extract_sound self :
  extractor_sound self →
  lookup_or_source_failure (broken (_alchemy_extractor self)) (extract self).1
  ∧ extractor_sound (extract self).2
  ∧ broken (_alchemy_extractor (extract self).2) = broken (_alchemy_extractor self).
Proof.
  intros Hself.
  destruct (extract_inv self) as (a' & it' & Hself' & Hres).
  set (b := broken (_alchemy_extractor self)).
  assert (∀ g lr,
    row_due b {| alch := _alchemy_extractor self; grp := g |} →
    match resume (_cluster self) g lr (_alchemy_extractor self) with
    | (Return _, GenSuspended g' _, _) => holds_row g'
    | (Return _, _, _) => False
    | (Raise e, _, _) => step_failure b e
    end) as Hresume.
  { intros g lr Hdue. unfold resume.
    pose proof (triple_outer_pass b (_cluster self) lr _ Hdue) as Hpass.
    destruct (outer_pass _ _ _) as [[[t lr']|e] h']; [|done]. by destruct Hpass. }
  assert (match _get_extract_iter_next (_cluster self)
                  (match _extract_iter self with
                   | None => _get_extract_iter
                   | Some gen => gen
                   end) (_alchemy_extractor self) with
          | (Return _, GenSuspended g' _, _) => holds_row g'
          | (Return _, _, _) => False
          | (Raise e, _, _) => step_failure b e
          end) as Hnext.
  { unfold extractor_sound in Hself.
    destruct (_extract_iter self) as [[|g lr|]|]; cbn [_get_extract_iter_next _get_extract_iter].
    - apply Hresume. split; [done|by right].
    - apply Hresume. split; [done|by left].
    - by left.
    - apply Hresume. split; [done|by right]. }
  pose proof (next_broken (_cluster self)
                (match _extract_iter self with
                 | None => _get_extract_iter
                 | Some gen => gen
                 end) (_alchemy_extractor self)) as Hb.
  unfold extract in *.
  destruct (_get_extract_iter_next _ _ _) as [[[t|e] gen'] a''] eqn:Hstep.
  - cbn [fst snd] in *. split; [done|]. split; [|done].
    unfold extractor_sound. cbn [_extract_iter]. by destruct gen'.
  - assert (lookup_or_source_failure b
              (match e with StopIteration => Return None | _ => Raise e end)) as He.
    { destruct Hnext as [->|[->|[Hk|Hs]]]; [done| |..].
      - simpl in Hres. by destruct Hres as (_ & ? & _).
      - destruct Hk as (k & -> & ?). left. by exists k.
      - destruct Hs as (msg & ? & ->). right. by exists msg. }
    apply next_raise_finished in Hstep as ->.
    destruct e; cbn [fst snd] in *; by split_and!.
Qed.

Lemma extract_n_sound n :
  ∀ self,
    extractor_sound self →
    Forall (lookup_or_source_failure (broken (_alchemy_extractor self)))
      (extract_n n self).1.
Proof.
  induction n as [|n IH]; intros self Hself; [constructor|].
  cbn [extract_n]. destruct (extract_sound self Hself) as (Hr & Hself' & Hb).
  destruct (extract self) as [r self']. specialize (IH self' Hself').
  destruct (extract_n n self') as [rs self'']. cbn [fst snd] in *.
  rewrite Hb in IH. by constructor.
Qed.

(** X2. On an extractor whose iterator has not been created yet, as [init]
    leaves it, and whatever its row source, which may end its results or
    fail during a fetch, the only exceptions that [extract()] raises are
    the lookup failure for one of the five expected fields and the failure
    that the row source raised: [last_row] is bound whenever the table is
    built, and nothing but a row is ever subscripted.  With a source that
    does not fail, only the lookup failures are left. *)
Theorem failures_are_lookup_or_source self n :
  _extract_iter self = None →
  Forall (lookup_or_source_failure (broken (_alchemy_extractor self)))
    (extract_n n self).1
  ∧ (broken (_alchemy_extractor self) = None →
     Forall lookup_failure (extract_n n self).1).
Proof.
  intros Hnew.
  assert (Forall (lookup_or_source_failure (broken (_alchemy_extractor self)))
            (extract_n n self).1) as Hall.
  { apply extract_n_sound. unfold extractor_sound. by rewrite Hnew. }
  split; [done|]. intros Hb. rewrite Hb in Hall.
  eapply Forall_impl; [exact Hall|].
  intros [t|x]; [done|]. intros [Hk|(msg & ? & _)]; [exact Hk|done].
Qed.

(** The source loses its connection after the first row: the call in
    progress raises that failure, and the table under construction is not
    returned. *)
Lemma failures_are_lookup_or_source_witness :
  ∃ e, init_with ∅ lost_connection = Return e
       ∧ _extract_iter e = None
       ∧ (extract_n 3 e).1
         = [Raise (SourceError "connection lost"); Return None; Return None]
       ∧ Forall (lookup_or_source_failure (Some "connection lost"))
           (extract_n 3 e).1.
Proof.
  eexists. split; [apply init_with_eq|]. split; [reflexivity|].
  split; [vm_compute; reflexivity|].
  exact (proj1 (failures_are_lookup_or_source
                  (mk_self (default "gold" ((∅ : gmap string string) !! "cluster"))
                     (select_from_clause
                      +:+ default " " ((∅ : gmap string string)
                                       !! "where_clause_suffix")
                      +:+ order_by_clause)
                     lost_connection None) 3 eq_refl)).
Defined.

End SourceFailures.

Section Bounded.
Context (n : nat).

Lemma source_bounded_raw_next :
  preserves (source_bounded n) _get_raw_extract_iter_next.
Proof.
  intros h Hh.
  destruct (raw_next_cases h)
    as [[_ ->]|[(Hfin & d & p & Hp & Hd & ->)
               |[(Hfin & Hhead & ->)|(Hfin & Hp & msg & _ & ->)]]]; [done|..]; cycle 2.
  { unfold source_bounded in *.
    cbn [alch grp fst snd pending calls it_finished set_it_finished].
    rewrite Hfin, Hp in Hh. simpl in Hh. lia. }
  - unfold source_bounded in *. cbn [alch grp fst snd pending calls].
    rewrite Hfin in *. rewrite Hp in Hh. simpl in Hh.
    rewrite Hd in Hh. simpl in Hh. lia.
  - unfold source_bounded in *.
    cbn [alch grp fst snd pending calls it_finished set_it_finished].
    rewrite Hfin in Hh.
    destruct (pending (alch h)) as [|[d|] p]; simpl in *; [lia| |lia].
    rewrite Hhead in Hh. simpl in Hh. lia.
Qed.

Lemma source_bounded_calls a fin : source_bounded n a fin → calls a ≤ S n.
Proof. unfold source_bounded. destruct fin; lia. Qed.

Lemma next_bounded cluster gen a :
  generator_bounded n gen a →
  generator_bounded n (_get_extract_iter_next cluster gen a).1.2
    (_get_extract_iter_next cluster gen a).2.
Proof.
  assert (∀ g lr,
    source_bounded n a (it_finished g) →
    generator_bounded n (resume cluster g lr a).1.2 (resume cluster g lr a).2)
    as Hresume.
  { intros g lr Ha. unfold resume.
    pose proof (preserves_outer_pass _ source_bounded_raw_next cluster lr
                  {| alch := a; grp := g |} Ha) as Hpass.
    destruct (outer_pass _ _ _) as [[[t lr']|e] h']; simpl in *; [done|].
    by eapply source_bounded_calls. }
  destruct gen as [|g lr|]; simpl; auto.
Qed.

Lemma extract_bounded self :
  extractor_bounded n self → extractor_bounded n (extract self).2.
Proof.
  unfold extractor_bounded, extract. intros Hself.
  apply (next_bounded (_cluster self)) in Hself.
  destruct (_get_extract_iter_next _ _ _) as [[r gen'] a'].
  destruct r as [t|[]]; exact Hself.
Qed.

Lemma extract_n_bounded k :
  ∀ self, extractor_bounded n self → extractor_bounded n (extract_n k self).2.
Proof.
  induction k as [|k IH]; intros self Hself; [done|].
  cbn [extract_n]. apply extract_bounded in Hself.
  destruct (extract self) as [r self']. specialize (IH self' Hself).
  by destruct (extract_n k self') as [rs self''].
Qed.

Lemma extractor_bounded_calls self :
  extractor_bounded n self → calls (_alchemy_extractor self) ≤ S n.
Proof.
  unfold extractor_bounded, generator_bounded, _get_extract_iter.
  destruct (_extract_iter self) as [[|g lr|]|]; eauto using source_bounded_calls.
Qed.

End Bounded.

Section SourceCalls.

(** X4. However often [extract()] is called, and whether the calls return
    tables, the sentinel or a failure, the row source is called at most
    once more than the number of rows the raw generator yields: the
    results are read once, and after the source has reported the end it is
    not asked again. *)
Theorem source_called_once_per_row conf results :
  ∃ e, init conf results = Return e
       ∧ ∀ k, calls (_alchemy_extractor (extract_n k e).2)
              ≤ S (length (raw_rows results)).
Proof.
  rewrite init_eq. eexists. split; [done|]. intros k.
  apply extractor_bounded_calls, extract_n_bounded.
  unfold extractor_bounded, generator_bounded, source_bounded. by simpl.
Qed.

End SourceCalls.

Section Totals.

Lemma concat_fmap_fmap {A B} (f : A → B) (ls : list (list A)) :
  concat (fmap (M:=list) f <$> ls) = f <$> concat ls.
Proof.
  induction ls as [|l ls IH]; [done|].
  rewrite fmap_cons. cbn [concat]. by rewrite IH, fmap_app.
Qed.

Lemma elem_of_concat_inv {A} (x : A) (ls : list (list A)) :
  x ∈ concat ls → ∃ l, l ∈ ls ∧ x ∈ l.
Proof.
  induction ls as [|l ls IH]; simpl; [by intros ?%elem_of_nil|].
  intros [Hx|Hx]%elem_of_app.
  - exists l. split; [left|done].
  - destruct (IH Hx) as (l' & Hl' & Hx'). exists l'. split; [by right|done].
Qed.

(** X5. Grouping loses and repeats nothing: the columns of the tables that
    are returned, taken table after table, are the rows of the input, one
    column per row and in the order of the rows. *)
Theorem every_row_one_column conf results :
  Forall well_formed (raw_rows results) →
  ∃ e ts,
    init conf results = Return e
    ∧ (∀ n, (extract_n n e).1 = results_of n (Return <$> ts))
    ∧ Forall2 column_matches (raw_rows results) (concat (tm_columns <$> ts)).
Proof.
  intros Hwf.
  destruct (init_extract_n_wf conf results Hwf) as (e & Hinit & Htrace).
  exists e, (table_of_run (_cluster e) <$> runs (raw_rows results)).
  split_and!; [done..|].
  rewrite <-list_fmap_compose.
  change (tm_columns ∘ table_of_run (_cluster e)) with (fmap (M:=list) column_of_row).
  rewrite concat_fmap_fmap. unfold runs. rewrite runs_by_concat.
  apply Forall2_fmap_r, Forall_Forall2_diag.
  eapply Forall_impl; [exact Hwf|]. intros x Hx. unfold column_matches; simpl.
  rewrite !(well_formed_lookup x); [done|done|field_in|done|field_in|done|field_in].
Qed.

Lemma every_row_one_column_witness :
  Forall well_formed (raw_rows (Some <$> interleaved))
  ∧ ∃ e ts,
      init ∅ (Some <$> interleaved) = Return e
      ∧ (∀ n, (extract_n n e).1 = results_of n (Return <$> ts))
      ∧ Forall2 column_matches (raw_rows (Some <$> interleaved))
          (concat (tm_columns <$> ts)).
Proof.
  split; [by_computation|].
  apply (every_row_one_column ∅ (Some <$> interleaved)). by_computation.
Defined.

(** X6. For rows in the order of the ORDER BY clause, the number of tables
    returned is the number of different (schema, name) pairs among the
    rows. *)
Theorem sorted_tables_count_keys conf results :
  Forall well_formed (raw_rows results) →
  sorted_rows (raw_rows results) →
  ∃ e ts,
    init conf results = Return e
    ∧ (∀ n, (extract_n n e).1 = results_of n (Return <$> ts))
    ∧ length ts = length (remove_dups (table_key <$> raw_rows results)).
Proof.
  intros Hwf Hsorted.
  destruct (init_extract_n_wf conf results Hwf) as (e & Hinit & Htrace).
  exists e, (table_of_run (_cluster e) <$> runs (raw_rows results)).
  split_and!; [done..|].
  rewrite length_fmap.
  rewrite <-(length_fmap run_id), <-(length_fmap Some (remove_dups _)).
  apply Permutation_length, NoDup_Permutation.
  - by apply sorted_runs_NoDup.
  - apply (NoDup_fmap_2 _), NoDup_remove_dups.
  - intros x. rewrite !list_elem_of_fmap. split.
    + intros (run & -> & Hrun).
      pose proof (runs_by_nonempty table_key (raw_rows results)) as Hne.
      eapply Forall_forall in Hne; [|exact Hrun].
      destruct run as [|y run]; [done|].
      exists (table_key y). split; [done|].
      apply elem_of_remove_dups, list_elem_of_fmap.
      exists y. split; [done|]. eapply runs_by_elem; [exact Hrun|left].
    + intros (k & -> & Hk).
      apply elem_of_remove_dups, list_elem_of_fmap in Hk as (r & -> & Hr).
      rewrite <-(runs_by_concat table_key (raw_rows results)) in Hr.
      apply elem_of_concat_inv in Hr as (run & Hrun & Hr).
      exists run. split; [|done].
      pose proof (runs_by_homogeneous table_key (raw_rows results)) as Hhom.
      eapply Forall_forall in Hhom; [|exact Hrun].
      destruct run as [|y run]; [by apply elem_of_nil in Hr|].
      unfold run_id. simpl. f_equal. apply Hhom; [done|left].
Qed.

Lemma sorted_tables_count_keys_witness :
  Forall well_formed (raw_rows (Some <$> scenario))
  ∧ sorted_rows (raw_rows (Some <$> scenario))
  ∧ ∃ e ts,
      init ∅ (Some <$> scenario) = Return e
      ∧ (∀ n, (extract_n n e).1 = results_of n (Return <$> ts))
      ∧ length ts = length (remove_dups (table_key <$> raw_rows (Some <$> scenario))).
Proof.
  split; [by_computation|]. split; [by_computation|].
  apply (sorted_tables_count_keys ∅ (Some <$> scenario)); by_computation.
Defined.

End Totals.

Section Fields.

Lemma raw_rows_Some rows :
  Forall (λ d, dict_truthy d = true) rows → raw_rows (Some <$> rows) = rows.
Proof.
  induction 1 as [|d rows Hd _ IH]; [done|].
  rewrite fmap_cons. cbn [raw_rows]. by rewrite Hd, IH.
Qed.

Lemma same_fields_lookup a b k :
  same_fields a b → k ∈ expected_fields → a !! k = b !! k.
Proof. intros Hab Hk. by eapply Forall_forall in Hab. Qed.

Lemma same_fields_key a b :
  same_fields a b → dict_truthy a = true → dict_truthy b = true →
  _get_table_key a = _get_table_key b.
Proof.
  intros Hab Ha Hb. unfold _get_table_key, getitem. rewrite Ha, Hb.
  rewrite (same_fields_lookup a b "schema"), (same_fields_lookup a b "name");
    [done|done|field_in|done|field_in].
Qed.

Lemma same_fields_column a b :
  same_fields a b → new_column (Dict a) = new_column (Dict b).
Proof.
  intros Hab. unfold new_column, subscript, getitem.
  rewrite (same_fields_lookup a b "col_name"), (same_fields_lookup a b "col_type"),
    (same_fields_lookup a b "col_sort_order");
    [done|done|field_in|done|field_in|done|field_in].
Qed.

Lemma same_fields_table cluster a b cols :
  same_fields a b →
  new_table cluster (Some (Dict a)) cols = new_table cluster (Some (Dict b)) cols.
Proof.
  intros Hab. unfold new_table, subscript, getitem.
  rewrite (same_fields_lookup a b "schema"), (same_fields_lookup a b "name");
    [done|done|field_in|done|field_in].
Qed.

Lemma entities_from_same_fields cluster rs1 rs2 :
  Forall2 same_fields rs1 rs2 →
  Forall (λ d, dict_truthy d = true) rs1 →
  Forall (λ d, dict_truthy d = true) rs2 →
  ∀ tgt l1 l2 cols,
    same_fields l1 l2 →
    entities_from cluster tgt l1 cols rs1 = entities_from cluster tgt l2 cols rs2.
Proof.
  induction 1 as [|a b rs1 rs2 Hab _ IH]; intros H1 H2 tgt l1 l2 cols Hl.
  - cbn [entities_from]. by rewrite (same_fields_table _ l1 l2).
  - apply Forall_cons in H1 as [Ha H1]. apply Forall_cons in H2 as [Hb H2].
    cbn [entities_from].
    rewrite (same_fields_key a b), (same_fields_column a b),
      (same_fields_table _ l1 l2) by done.
    destruct (_get_table_key b) as [k|e]; [|done].
    destruct (decide (k = tgt)).
    + destruct (new_column (Dict b)); [by apply IH|done].
    + destruct (new_table _ _ _); [|done]. f_equal.
      destruct (new_column (Dict b)); [by apply IH|done].
Qed.

(** X7. Only the five selected columns of a row are read: two inputs whose
    rows agree, one by one, on [schema], [name], [col_name], [col_type] and
    [col_sort_order] give the same results, whatever else the rows hold. *)
Theorem only_expected_fields_are_read conf rows1 rows2 :
  Forall2 same_fields rows1 rows2 →
  Forall (λ d, dict_truthy d = true) rows1 →
  Forall (λ d, dict_truthy d = true) rows2 →
  ∃ e1 e2,
    init conf (Some <$> rows1) = Return e1
    ∧ init conf (Some <$> rows2) = Return e2
    ∧ ∀ n, (extract_n n e1).1 = (extract_n n e2).1.
Proof.
  intros Hsame H1 H2. rewrite !init_eq. do 2 eexists. split_and!; [done..|].
  intros n. rewrite !extract_n_entities, !raw_rows_Some by done. f_equal.
  destruct Hsame as [|a b rs1 rs2 Hab Hrs]; [done|].
  apply Forall_cons in H1 as [Ha H1]. apply Forall_cons in H2 as [Hb H2].
  unfold entities.
  rewrite (same_fields_key a b), (same_fields_column a b) by done.
  destruct (_get_table_key b) as [k|e]; [|done].
  destruct (new_column (Dict b)); [|done].
  by apply entities_from_same_fields.
Qed.

Lemma only_expected_fields_are_read_witness :
  Forall2 same_fields scenario scenario_with_comment
  ∧ Forall (λ d, dict_truthy d = true) scenario
  ∧ Forall (λ d, dict_truthy d = true) scenario_with_comment
  ∧ scenario ≠ scenario_with_comment
  ∧ ∃ e1 e2,
      init ∅ (Some <$> scenario) = Return e1
      ∧ init ∅ (Some <$> scenario_with_comment) = Return e2
      ∧ ∀ n, (extract_n n e1).1 = (extract_n n e2).1.
Proof.
  assert (Forall2 same_fields scenario scenario_with_comment) as H0
    by by_computation.
  assert (Forall (λ d, dict_truthy d = true) scenario) as H1
    by (repeat constructor).
  assert (Forall (λ d, dict_truthy d = true) scenario_with_comment) as H2
    by (repeat constructor).
  split_and!; [done..|by_computation|].
  exact (only_expected_fields_are_read ∅ scenario scenario_with_comment H0 H1 H2).
Defined.

End Fields.

Section FirstMissing.

Lemma first_missing_exists r : ¬ well_formed r → ∃ k, first_missing r = Some k.
Proof.
  intros Hbad. destruct (first_missing r) as [k|] eqn:Hk; [by exists k|].
  exfalso. apply Hbad. unfold well_formed. apply Forall_forall. intros k Hin.
  apply list_elem_of_In in Hin.
  pose proof (find_none _ _ Hk k Hin) as Hl. unfold lacks in Hl.
  by destruct (r !! k).
Qed.

(** The key function reads [schema] and [name] before the constructor of
    the column reads the other three fields, each in the order of
    [expected_fields]. *)
Lemma first_missing_raised r k0 :
  dict_truthy r = true → first_missing r = Some k0 →
  match _get_table_key r with
  | Raise e => e = KeyError k0
  | Return _ => new_column (Dict r) = Raise (KeyError k0)
  end.
Proof.
  intros Ht. unfold first_missing, expected_fields, lacks. cbn [find].
  unfold _get_table_key, new_column, subscript, getitem. rewrite Ht.
  destruct (r !! "schema"); [|by intros [= <-]].
  destruct (r !! "name"); [|by intros [= <-]]. cbn [bind_o].
  destruct (r !! "col_name"); [|by intros [= <-]].
  destruct (r !! "col_type"); [|by intros [= <-]].
  destruct (r !! "col_sort_order"); [done|by intros [= <-]].
Qed.

Lemma entities_from_first_missing cluster bad rest k0 good :
  dict_truthy bad = true → first_missing bad = Some k0 →
  ∀ tgt lst cols,
    Forall well_formed good → well_formed lst →
    Forall (raises_only k0)
      (entities_from cluster tgt lst cols (good ++ bad :: rest)).
Proof.
  intros Ht Hk0.
  induction good as [|r good IH]; intros tgt lst cols Hgood Hlst.
  - cbn [app entities_from].
    pose proof (first_missing_raised bad k0 Ht Hk0) as Hbad.
    destruct (_get_table_key bad) as [k|e]; [|by repeat constructor].
    rewrite Hbad. destruct (decide (k = tgt)); [by repeat constructor|].
    rewrite new_table_wf by done. by repeat constructor.
  - apply Forall_cons in Hgood as [Hr Hgood].
    cbn [app entities_from].
    rewrite get_table_key_wf, new_column_wf by done.
    destruct (decide (key_of r = tgt)); [by apply IH|].
    rewrite new_table_wf by done. constructor; [done|]. by apply IH.
Qed.

Lemma results_of_fails_only_with k0 n :
  ∀ os, Forall (raises_only k0) os → Forall (fails_only_with k0) (results_of n os).
Proof.
  induction n as [|n IH]; intros os Hos; [constructor|].
  destruct os as [|o os]; cbn [results_of].
  - constructor; [done|]. by apply IH.
  - apply Forall_cons in Hos as [Ho Hos]. constructor; [|by apply IH].
    destruct o as [t|e]; [done|]. simpl in Ho. by subst e.
Qed.

(** X8. The failure names the first field that is missing: when a row that
    the raw generator yields is not well-formed, the exception that
    [extract()] raises is the lookup failure for the first of [schema],
    [name], [col_name], [col_type], [col_sort_order] that the first such
    row lacks, and no call raises anything else. *)
Theorem failure_names_first_missing_field conf results good bad rest :
  raw_rows results = good ++ bad :: rest →
  Forall well_formed good →
  ¬ well_formed bad →
  ∃ e k m,
    init conf results = Return e
    ∧ first_missing bad = Some k
    ∧ (extract_n (S m) e).1 !! m = Some (Raise (KeyError k))
    ∧ ∀ n, Forall (fails_only_with k) (extract_n n e).1.
Proof.
  intros Hrows Hgood Hbad.
  destruct (first_missing_exists bad Hbad) as [k0 Hk0].
  assert (dict_truthy bad = true) as Ht.
  { pose proof (raw_rows_truthy results) as Hall. rewrite Hrows in Hall.
    apply Forall_app in Hall as [_ Hall]. by apply Forall_cons in Hall as [? _]. }
  rewrite init_eq. eexists. exists k0.
  set (cluster := default "gold" (conf !! "cluster")).
  assert (Forall (raises_only k0) (entities cluster (good ++ bad :: rest))) as Hall.
  { destruct good as [|r good].
    - cbn [app entities].
      pose proof (first_missing_raised bad k0 Ht Hk0) as Hb.
      destruct (_get_table_key bad) as [k|e]; [|by repeat constructor].
      rewrite Hb. by repeat constructor.
    - apply Forall_cons in Hgood as [Hr Hgood].
      cbn [app entities]. rewrite get_table_key_wf, new_column_wf by done.
      by apply entities_from_first_missing. }
  destruct (entities_bad cluster good bad rest Hgood Hbad)
    as (m & k & Hent & _ & _ & Hm).
  assert (k = k0) as ->.
  { rewrite Hent in Hall. apply Forall_app in Hall as [_ Hall].
    apply Forall_cons in Hall as [Hk _]. simpl in Hk. by injection Hk. }
  exists m. split_and!; [done..| |]; fold cluster.
  - rewrite extract_n_entities, Hrows, Hent, results_of_take.
    assert (length (take m (table_of_run cluster <$> runs good)) = m) as Hlen.
    { rewrite length_take, length_fmap. destruct Hm as [Hm|[Hm _]]; lia. }
    rewrite lookup_take_lt by lia. rewrite fmap_app.
    rewrite lookup_app_l; [|rewrite length_app, !length_fmap; simpl; lia].
    rewrite lookup_app_r; [|by rewrite !length_fmap, Hlen].
    by rewrite !length_fmap, Hlen, Nat.sub_diag.
  - intros n. rewrite extract_n_entities, Hrows.
    by apply results_of_fails_only_with.
Qed.

Lemma failure_names_first_missing_field_witness :
  raw_rows (Some <$> scenario ++ [nameless]) = scenario ++ nameless :: []
  ∧ Forall well_formed scenario
  ∧ ¬ well_formed nameless
  ∧ ∃ e k m,
      init ∅ (Some <$> scenario ++ [nameless]) = Return e
      ∧ first_missing nameless = Some k
      ∧ (extract_n (S m) e).1 !! m = Some (Raise (KeyError k))
      ∧ ∀ n, Forall (fails_only_with k) (extract_n n e).1.
Proof.
  assert (raw_rows (Some <$> scenario ++ [nameless]) = scenario ++ nameless :: [])
    as H1 by (vm_compute; reflexivity).
  assert (Forall well_formed scenario) as H2 by by_computation.
  assert (¬ well_formed nameless) as H3 by by_computation.
  split_and!; [done..|].
  exact (failure_names_first_missing_field ∅ (Some <$> scenario ++ [nameless])
           scenario nameless [] H1 H2 H3).
Defined.

End FirstMissing.

Section Prefix.

Lemma raw_rows_app_Some rows tail :
  Forall (λ d, dict_truthy d = true) rows →
  raw_rows ((Some <$> rows) ++ tail) = rows ++ raw_rows tail.
Proof.
  induction 1 as [|d rows Hd _ IH]; [done|].
  cbn [fmap list_fmap app raw_rows]. rewrite Hd.
  change (list_fmap _ _ ?g ?l) with (g <$> l). by rewrite IH.
Qed.

Lemma snoc_cases {A} (l : list A) : l ≠ [] → ∃ l' x, l = l' ++ [x].
Proof. destruct l as [|x l _] using rev_ind; [done|]. by exists l, x. Qed.

(** The tables of the runs that the rows seen so far have closed do not
    depend on the rows that follow. *)
Lemma entities_from_closed cluster rs2 rs :
  ∀ pre lst front lastrun,
    Forall well_formed rs → well_formed lst →
    Forall (λ x, table_key x = table_key lst) pre →
    runs ((pre ++ [lst]) ++ rs) = front ++ [lastrun] →
    ∃ rest,
      entities_from cluster (key_of lst) lst (column_of_row <$> (pre ++ [lst]))
        (rs ++ rs2)
      = (Return <$> (table_of_run cluster <$> front)) ++ rest.
Proof.
  unfold runs.
  induction rs as [|r rs IH]; intros pre lst front lastrun Hrs Hlst Hpre Hruns.
  - rewrite app_nil_r in Hruns.
    rewrite runs_by_homog_run in Hruns;
      [|by destruct pre|by apply run_snoc_homogeneous].
    destruct front as [|f [|f' front]]; [by eexists|done..].
  - apply Forall_cons in Hrs as [Hr Hrs].
    cbn [app entities_from]. rewrite get_table_key_wf by done.
    destruct (decide (key_of r = key_of lst)) as [Heq|Hne].
    + rewrite new_column_wf by done.
      rewrite <-Heq. apply key_of_eq in Heq; [|done..].
      replace ((column_of_row <$> pre ++ [lst]) ++ [column_of_row r])
        with (column_of_row <$> (pre ++ [lst]) ++ [r]) by by rewrite fmap_app.
      apply (IH (pre ++ [lst]) r front lastrun); [done..| |].
      * apply Forall_app. split; [|by repeat constructor].
        eapply Forall_impl; [done|]. intros x Hx. simpl in Hx. congruence.
      * by rewrite <-(app_assoc _ [r] rs).
    + rewrite new_table_wf, new_column_wf by done.
      rewrite runs_by_app, runs_by_homog_run in Hruns;
        [|by destruct pre|by apply run_snoc_homogeneous|]; cycle 1.
      { rewrite last_snoc. intros x y [= <-] [= <-] Hk.
        apply Hne. by apply key_of_eq. }
      destruct (snoc_cases (runs_by table_key (r :: rs))) as (front' & last' & Hr').
      { destruct (runs_by_cons_head table_key r rs) as (? & ? & ->). done. }
      rewrite Hr' in Hruns.
      change ([pre ++ [lst]] ++ front' ++ [last'])
        with (((pre ++ [lst]) :: front') ++ [last']) in Hruns.
      apply app_inj_tail in Hruns as [<- <-].
      destruct (IH [] r front' last') as [rest Hrest]; [done..|].
      exists rest. cbn [fmap list_fmap app]. rewrite table_of_run_snoc. f_equal.
      exact Hrest.
Qed.

Lemma results_of_app_le n os os1 os2 :
  n ≤ length os → results_of n (os ++ os1) = results_of n (os ++ os2).
Proof.
  intros Hn. rewrite !results_of_take, !fmap_app, <-!app_assoc.
  by rewrite !take_app_le by (by rewrite length_fmap).
Qed.

(** X9. What comes later does not change the tables that are already
    closed: if the well-formed rows [rows] alone give more than [n] tables,
    the first [n] calls of [extract()] return the same whatever results
    follow [rows] in the input, be they rows, well-formed or not, empty
    rows or [None]. *)
Theorem later_rows_leave_closed_tables conf rows tail n :
  Forall well_formed rows →
  n < length (runs rows) →
  ∃ e1 e2,
    init conf (Some <$> rows) = Return e1
    ∧ init conf ((Some <$> rows) ++ tail) = Return e2
    ∧ (extract_n n e1).1 = (extract_n n e2).1.
Proof.
  intros Hwf Hn. rewrite !init_eq. do 2 eexists. split_and!; [done..|].
  assert (Forall (λ d, dict_truthy d = true) rows) as Htruthy.
  { eapply Forall_impl; [exact Hwf|]. apply well_formed_truthy. }
  rewrite !extract_n_entities, raw_rows_app_Some, raw_rows_Some by done.
  destruct (snoc_cases (runs rows)) as (front & lastrun & Hruns).
  { intros Hnil. rewrite Hnil in Hn. simpl in Hn. lia. }
  rewrite Hruns, length_app in Hn. simpl in Hn.
  rewrite entities_wf, Hruns, !fmap_app by done.
  destruct rows as [|r rows]; [by destruct front|].
  apply Forall_cons in Hwf as [Hr Hrows].
  cbn [app entities]. rewrite get_table_key_wf, new_column_wf by done.
  destruct (entities_from_closed (default "gold" (conf !! "cluster")) (raw_rows tail)
              rows [] r front lastrun) as [rest Hrest]; [done..|].
  cbn [app fmap list_fmap] in Hrest. rewrite Hrest.
  apply results_of_app_le. rewrite !length_fmap. lia.
Qed.

Lemma later_rows_leave_closed_tables_witness :
  Forall well_formed scenario
  ∧ 1 < length (runs scenario)
  ∧ ∃ e1 e2,
      init ∅ (Some <$> scenario) = Return e1
      ∧ init ∅ ((Some <$> scenario) ++ mixed_tail) = Return e2
      ∧ (extract_n 1 e1).1 = (extract_n 1 e2).1.
Proof.
  assert (Forall well_formed scenario) as H1 by by_computation.
  assert (1 < length (runs scenario)) as H2 by by_computation.
  split_and!; [done..|].
  exact (later_rows_leave_closed_tables ∅ scenario mixed_tail 1 H1 H2).
Defined.

End Prefix.

Section Seams.

Lemma results_of_app_exact os1 os2 m :
  results_of (length os1 + m) (os1 ++ os2)
  = results_of (length os1) os1 ++ results_of m os2.
Proof. induction os1 as [|o os1 IH]; simpl; [done|]. by rewrite IH. Qed.

(** X10. On well-formed rows, extraction splits where the table key
    changes: if all rows of [rows1] and of [rows2] have the five expected
    fields, and the last row of [rows1] and the first row of [rows2] have
    different keys, the calls of [extract()] on [rows1 ++ rows2] return the
    tables of [rows1] and then what they return on [rows2] alone; no table
    spans the seam and none is lost or repeated there. *)
Theorem extraction_splits_at_key_change conf rows1 rows2 m :
  Forall well_formed rows1 →
  Forall well_formed rows2 →
  (∀ x y, last rows1 = Some x → head rows2 = Some y → table_key x ≠ table_key y) →
  ∃ e1 e2 e12,
    init conf (Some <$> rows1) = Return e1
    ∧ init conf (Some <$> rows2) = Return e2
    ∧ init conf (Some <$> rows1 ++ rows2) = Return e12
    ∧ (extract_n (length (runs rows1) + m) e12).1
      = (extract_n (length (runs rows1)) e1).1 ++ (extract_n m e2).1.
Proof.
  intros H1 H2 Hseam. rewrite !init_eq. do 3 eexists. split_and!; [done..|].
  assert (Forall well_formed (rows1 ++ rows2)) as H12 by by apply Forall_app.
  assert (∀ rows, Forall well_formed rows → raw_rows (Some <$> rows) = rows) as Hraw.
  { intros rows Hrows. apply raw_rows_Some.
    eapply Forall_impl; [exact Hrows|]. apply well_formed_truthy. }
  rewrite !extract_n_entities, !Hraw, !entities_wf by done.
  unfold runs. rewrite (runs_by_app table_key rows1 rows2 Hseam), !fmap_app.
  set (ts1 := Return <$> (table_of_run _ <$> runs_by table_key rows1)).
  replace (length (runs_by table_key rows1)) with (length ts1)
    by (unfold ts1; by rewrite !length_fmap).
  apply results_of_app_exact.
Qed.

Lemma extraction_splits_at_key_change_witness :
  Forall well_formed scenario
  ∧ Forall well_formed interleaved
  ∧ (∀ x y, last scenario = Some x → head interleaved = Some y →
            table_key x ≠ table_key y)
  ∧ ∃ e1 e2 e12,
      init ∅ (Some <$> scenario) = Return e1
      ∧ init ∅ (Some <$> interleaved) = Return e2
      ∧ init ∅ (Some <$> scenario ++ interleaved) = Return e12
      ∧ (extract_n (length (runs scenario) + 4) e12).1
        = (extract_n (length (runs scenario)) e1).1 ++ (extract_n 4 e2).1.
Proof.
  assert (Forall well_formed scenario) as H1 by by_computation.
  assert (Forall well_formed interleaved) as H2 by by_computation.
  assert (∀ x y, last scenario = Some x → head interleaved = Some y →
                 table_key x ≠ table_key y) as H3.
  { intros x y [= <-] [= <-]. by_computation. }
  split_and!; [done..|].
  exact (extraction_splits_at_key_change ∅ scenario interleaved 4 H1 H2 H3).
Defined.

End Seams.
